(** * ZMTP v2 framing decoder and PLAIN client mechanism

    A shallow embedding of [src/v2_decoder.cpp] and [src/plain_client.cpp]
    of libzmq.  Stateful C++ objects become records that are passed
    explicitly; every member function returns its [int] result code together
    with the updated object.  The thread-local [errno] is a field of the
    object that sets it. *)

From Stdlib Require Import ZArith List Lia Bool.
From Stdlib Require Import Strings.Byte.
Import ListNotations.

Local Open Scope Z_scope.

(** ** Bytes, buffers and the wire helpers *)

Module Wire.

(** An [unsigned char] read as an integer. *)
Definition byte_val (b : byte) : Z := Z.of_N (Byte.to_N b).

(** [static_cast<unsigned char> (z)]: the low eight bits. *)
Definition byte_of_Z (z : Z) : byte :=
  match Byte.of_N (Z.to_N (z mod 256)) with
  | Some b => b
  | None => x00
  end.

(** [buf[i]] for an in-range index. *)
Definition peek (buf : list byte) (i : nat) : byte := nth i buf x00.

(** [buf[i] = b]; the model leaves the buffer alone out of range. *)
Fixpoint poke (buf : list byte) (i : nat) (b : byte) : list byte :=
  match buf, i with
  | [], _ => []
  | _ :: t, O => b :: t
  | h :: t, S j => h :: poke t j b
  end.

(** [memcpy (buf + off, src, length src)]. *)
Fixpoint memcpy (buf : list byte) (off : nat) (src : list byte) : list byte :=
  match src with
  | [] => buf
  | b :: rest => memcpy (poke buf off b) (S off) rest
  end.

(** [memcmp (data, lit, n) == 0] for a literal [lit] of [n] bytes. *)
Fixpoint bytes_eqb (a b : list byte) : bool :=
  match a, b with
  | [], [] => true
  | x :: a', y :: b' => Byte.eqb x y && bytes_eqb a' b'
  | _, _ => false
  end.

Definition memcmp0 (data lit : list byte) : bool :=
  bytes_eqb (firstn (length lit) data) lit.

(** Modelled from the spec: [get_uint64] of [wire.hpp], which is not part
    of the sources at hand.  The size header is a "u64, big-endian": the
    most significant byte comes first, whatever the host byte order. *)
Definition get_uint64 (buf : list byte) : Z :=
  Z.lor (Z.shiftl (byte_val (peek buf 0)) 56)
 (Z.lor (Z.shiftl (byte_val (peek buf 1)) 48)
 (Z.lor (Z.shiftl (byte_val (peek buf 2)) 40)
 (Z.lor (Z.shiftl (byte_val (peek buf 3)) 32)
 (Z.lor (Z.shiftl (byte_val (peek buf 4)) 24)
 (Z.lor (Z.shiftl (byte_val (peek buf 5)) 16)
 (Z.lor (Z.shiftl (byte_val (peek buf 6)) 8)
        (byte_val (peek buf 7)))))))).

(** The positional value of a byte string read most significant byte
    first; the reference against which [get_uint64] is checked. *)
Definition be_value (bs : list byte) : Z :=
  fold_left (fun acc b => acc * 256 + byte_val b) bs 0.

(** The eight-byte big-endian image of [z], used to build frames. *)
Definition put_uint64 (z : Z) : list byte :=
  map (fun k => byte_of_Z (Z.shiftr z (8 * Z.of_nat k)))
      [7; 6; 5; 4; 3; 2; 1; 0]%nat.

End Wire.

(** The values of [errno] the two components set or test. *)
Inductive errno_t := ENONE | EMSGSIZE | ENOMEM | EAGAIN | EPROTO.

Definition errno_eqb (a b : errno_t) : bool :=
  match a, b with
  | ENONE, ENONE | EMSGSIZE, EMSGSIZE | ENOMEM, ENOMEM
  | EAGAIN, EAGAIN | EPROTO, EPROTO => true
  | _, _ => false
  end.

(** What a call leaves in [errno]: the value it set, or the old one. *)
Definition errno_after (set : option errno_t) (old : errno_t) : errno_t :=
  match set with
  | Some e => e
  | None => old
  end.

(** Constants of headers that are not part of the sources at hand:
    the flag bits of [msg_t] ([msg.hpp]), the size below which a message
    is stored inline and therefore copied ([max_vsm_size]), and the width
    of the platform's [size_t]. *)
Record platform_t := {
  msg_more : Z;
  msg_command : Z;
  max_vsm_size : Z;
  size_t_bits : Z
}.

(** The values of libzmq on a platform with a 64-bit [size_t]; the worked
    examples run on it. *)
Definition lp64 : platform_t :=
  {| msg_more := 1; msg_command := 2; max_vsm_size := 33;
     size_t_bits := 64 |}.

(** ** The message object *)

Module Msg.

(** Modelled from the spec: [msg_t] of [msg.cpp], which is not part of the
    sources at hand.  A message is created uninitialised, becomes owned by
    [init_size], shared by the initialisation from the receive buffer, or
    empty by [init], and is destroyed by [close].  [init] and [close]
    always succeed; the only failure of an initialisation with storage
    is the failure to allocate, reported as out of memory. *)
Inductive kind_t := uninitialised | empty | owned | shared.

Record msg_t := {
  kind : kind_t;
  flags : Z;
  data : list byte
}.

Definition size (m : msg_t) : Z := Z.of_nat (length (data m)).

Definition closed : msg_t :=
  {| kind := uninitialised; flags := 0; data := [] |}.

Definition empty_msg : msg_t :=
  {| kind := empty; flags := 0; data := [] |}.

Definition init (m : msg_t) : Z * msg_t := (0, empty_msg).

Definition close (m : msg_t) : Z * msg_t := (0, closed).

(** [init_size (n)]: storage of exactly [n] bytes, not yet written (the
    model shows unwritten bytes as zero).  [alloc_ok] is the allocator's
    answer; a failed call leaves the message without storage. *)
Definition init_size (alloc_ok : bool) (n : Z) (m : msg_t)
  : Z * option errno_t * msg_t :=
  if alloc_ok
  then (0, None, {| kind := owned; flags := 0;
                    data := repeat x00 (Z.to_nat n) |})
  else (-1, Some ENOMEM, closed).

(** [init (data, size, ffn, hint, content)]: a message over [n] bytes of
    the receive buffer.  A small message copies them into storage of its
    own; otherwise the message shares the buffer.  The bytes of the
    region are shown as zero until the decoder has received them. *)
Definition init_external (P : platform_t) (alloc_ok : bool) (n : Z)
    (m : msg_t) : Z * option errno_t * msg_t :=
  if n <? max_vsm_size P
  then init_size alloc_ok n m
  else (0, None, {| kind := shared; flags := 0;
                    data := repeat x00 (Z.to_nat n) |}).

Definition is_zcmsg (m : msg_t) : bool :=
  match kind m with
  | shared => true
  | _ => false
  end.

Definition set_flags (f : Z) (m : msg_t) : msg_t :=
  {| kind := kind m; flags := Z.lor (flags m) f; data := data m |}.

Definition with_data (bs : list byte) (m : msg_t) : msg_t :=
  {| kind := kind m; flags := flags m; data := bs |}.

(** What a receiver observes of a message: flags, size, payload. *)
Definition view (m : msg_t) : Z * Z * list byte :=
  (flags m, size m, data m).

End Msg.

(** ** The v2 framing decoder *)

Module V2Decoder.

(** Flag bits of the frame's first byte ([v2_protocol.hpp]; the spec
    gives MORE = 0x01, LARGE = 0x02, COMMAND = 0x04). *)
Definition more_flag : Z := 1.
Definition large_flag : Z := 2.
Definition command_flag : Z := 4.

(** The member function registered as the next step. *)
Inductive step_t :=
| fn_flags_ready
| fn_one_byte_size_ready
| fn_eight_byte_size_ready
| fn_message_ready.

(** The buffer the read position points into. *)
Inductive buffer_t := in_tmpbuf | in_message.

Record v2_decoder_t := {
  (* decoder_base_t *)
  next : step_t;
  read_buf : buffer_t;
  read_off : nat;
  to_read : Z;
  (* shared_message_memory_allocator *)
  refs : Z;
  (* v2_decoder_t *)
  tmpbuf : list byte;
  msg_flags : Z;
  in_progress : Msg.msg_t;
  zero_copy : bool;
  maxmsgsize : Z;
  errno : errno_t
}.

(** A position in the input, as a step receives it in [read_pos],
    together with the end of the receive buffer it is compared with,
    [data () + size ()]: both are addresses. *)
Record position_t := {
  addr : Z;
  buf_end : Z
}.

(** The position [n] bytes further in the input. *)
Definition advance (p : position_t) (n : nat) : position_t :=
  {| addr := addr p + Z.of_nat n; buf_end := buf_end p |}.

(** A position that lies in no receive buffer. *)
Definition outside : position_t := {| addr := 0; buf_end := 0 |}.

(** What the surroundings decide for one call of [decode]: where the
    first byte of the input lies and where the receive buffer ends, and
    whether the allocator has memory. *)
Record call_env := {
  input : position_t;
  alloc_ok : bool
}.

(** Modelled from the spec: [next_step] of [decoder_base_t]
    ([decoder.hpp], not part of the sources at hand): request [n] bytes
    at the start of a buffer and register the step to run once they
    have arrived. *)
Definition next_step (buf : buffer_t) (n : Z) (fn : step_t)
    (d : v2_decoder_t) : v2_decoder_t :=
  {| next := fn; read_buf := buf; read_off := 0%nat; to_read := n;
     refs := refs d; tmpbuf := tmpbuf d; msg_flags := msg_flags d;
     in_progress := in_progress d; zero_copy := zero_copy d;
     maxmsgsize := maxmsgsize d; errno := errno d |}.

Definition set_msg_flags (f : Z) (d : v2_decoder_t) : v2_decoder_t :=
  {| next := next d; read_buf := read_buf d; read_off := read_off d;
     to_read := to_read d; refs := refs d; tmpbuf := tmpbuf d;
     msg_flags := f; in_progress := in_progress d;
     zero_copy := zero_copy d; maxmsgsize := maxmsgsize d;
     errno := errno d |}.

Definition set_errno (e : errno_t) (d : v2_decoder_t) : v2_decoder_t :=
  {| next := next d; read_buf := read_buf d; read_off := read_off d;
     to_read := to_read d; refs := refs d; tmpbuf := tmpbuf d;
     msg_flags := msg_flags d; in_progress := in_progress d;
     zero_copy := zero_copy d; maxmsgsize := maxmsgsize d;
     errno := e |}.

Definition set_in_progress (m : Msg.msg_t) (d : v2_decoder_t)
  : v2_decoder_t :=
  {| next := next d; read_buf := read_buf d; read_off := read_off d;
     to_read := to_read d; refs := refs d; tmpbuf := tmpbuf d;
     msg_flags := msg_flags d; in_progress := m;
     zero_copy := zero_copy d; maxmsgsize := maxmsgsize d;
     errno := errno d |}.

(** [advance_content (); inc_ref ()]: one more message shares the
    receive buffer. *)
Definition inc_ref (d : v2_decoder_t) : v2_decoder_t :=
  {| next := next d; read_buf := read_buf d; read_off := read_off d;
     to_read := to_read d; refs := refs d + 1; tmpbuf := tmpbuf d;
     msg_flags := msg_flags d; in_progress := in_progress d;
     zero_copy := zero_copy d; maxmsgsize := maxmsgsize d;
     errno := errno d |}.

(** The constructor: [in_progress.init ()], then read one byte and go to
    [flags_ready]. *)
Definition create (maxmsgsize_ : Z) (zero_copy_ : bool) : v2_decoder_t :=
  let '(_, m) := Msg.init Msg.closed in
  next_step in_tmpbuf 1 fn_flags_ready
    {| next := fn_flags_ready; read_buf := in_tmpbuf; read_off := 0%nat;
       to_read := 0; refs := 0; tmpbuf := repeat x00 8; msg_flags := 0;
       in_progress := m; zero_copy := zero_copy_;
       maxmsgsize := maxmsgsize_; errno := ENONE |}.

(** Two decoders are alike when they differ at most in how the message
    in progress holds its bytes (owned or shared), in the count of shared
    messages and in [errno]: what the surroundings of a call decide. *)
Definition shape (d : v2_decoder_t) :=
  (next d, read_buf d, read_off d, to_read d, tmpbuf d, msg_flags d,
   Msg.flags (in_progress d), Msg.data (in_progress d), maxmsgsize d).

Definition alike (d1 d2 : v2_decoder_t) : Prop := shape d1 = shape d2.

Section Steps.

Variable P : platform_t.

(** [static_cast<size_t> (msg_size)]. *)
Definition to_size_t (z : Z) : Z := z mod 2 ^ size_t_bits P.

Definition test_flag (b : byte) (mask : Z) : bool :=
  negb (Z.land (Wire.byte_val b) mask =? 0).

Definition flags_ready (d : v2_decoder_t) : Z * v2_decoder_t :=
  let b := Wire.peek (tmpbuf d) 0 in
  let f0 := 0 in
  let f1 := if test_flag b more_flag
            then Z.lor f0 (msg_more P) else f0 in
  let f2 := if test_flag b command_flag
            then Z.lor f1 (msg_command P) else f1 in
  let d1 := set_msg_flags f2 d in
  if test_flag b large_flag
  then (0, next_step in_tmpbuf 8 fn_eight_byte_size_ready d1)
  else (0, next_step in_tmpbuf 1 fn_one_byte_size_ready d1).

(** The pointer sum [a + n] for an address [a]: it is taken at the width
    of a pointer, which is that of [size_t]; past the top of the address
    space it wraps. *)
Definition ptr_add (a n : Z) : Z := (a + n) mod 2 ^ size_t_bits P.

(** [size_ready (msg_size, read_pos)]. *)
Definition size_ready (alloc : bool) (msg_size : Z) (read_pos : position_t)
    (d : v2_decoder_t) : Z * v2_decoder_t :=
  if (0 <=? maxmsgsize d) && (maxmsgsize d <? msg_size)
  then (-1, set_errno EMSGSIZE d)
  else if negb (msg_size =? to_size_t msg_size)
  then (-1, set_errno EMSGSIZE d)
  else
    let '(_, m0) := Msg.close (in_progress d) in
    let '(rc, err, m1, d1) :=
      if negb (zero_copy d)
         || (buf_end read_pos <? ptr_add (addr read_pos) msg_size)
      then
        let '(rc, err, m1) :=
          Msg.init_size alloc (to_size_t msg_size) m0 in
        (rc, err, m1, d)
      else
        let '(rc, err, m1) :=
          Msg.init_external P alloc (to_size_t msg_size) m0 in
        (rc, err, m1, if Msg.is_zcmsg m1 then inc_ref d else d) in
    let d2 := set_errno (errno_after err (errno d1))
                (set_in_progress m1 d1) in
    if negb (rc =? 0)
    then
      if negb (errno_eqb (errno d2) ENOMEM)
      then (-1, d2)
      else
        let '(rc', m2) := Msg.init m1 in
        if negb (rc' =? 0)
        then (-1, set_in_progress m2 d2)
        else (-1, set_errno ENOMEM (set_in_progress m2 d2))
    else
      let m2 := Msg.set_flags (msg_flags d2) m1 in
      (0, next_step in_message (Msg.size m2) fn_message_ready
            (set_in_progress m2 d2)).

Definition one_byte_size_ready (alloc : bool) (read_pos : position_t)
    (d : v2_decoder_t) : Z * v2_decoder_t :=
  size_ready alloc (Wire.byte_val (Wire.peek (tmpbuf d) 0)) read_pos d.

Definition eight_byte_size_ready (alloc : bool) (read_pos : position_t)
    (d : v2_decoder_t) : Z * v2_decoder_t :=
  let msg_size := Wire.get_uint64 (tmpbuf d) in
  size_ready alloc msg_size read_pos d.

Definition message_ready (d : v2_decoder_t) : Z * v2_decoder_t :=
  (1, next_step in_tmpbuf 1 fn_flags_ready d).

(** [(this->*next) (read_pos)]. *)
Definition call_next (alloc : bool) (read_pos : position_t) (d : v2_decoder_t)
  : Z * v2_decoder_t :=
  match next d with
  | fn_flags_ready => flags_ready d
  | fn_one_byte_size_ready => one_byte_size_ready alloc read_pos d
  | fn_eight_byte_size_ready => eight_byte_size_ready alloc read_pos d
  | fn_message_ready => message_ready d
  end.

(** Modelled from the spec: the copy of one input byte to the read
    position, as [decode] of [decoder_base_t] does it ([decoder.hpp], not
    part of the sources at hand): the byte goes to the requested region,
    the read position advances and one byte less is awaited. *)
Definition store (b : byte) (d : v2_decoder_t) : v2_decoder_t :=
  match read_buf d with
  | in_tmpbuf =>
      {| next := next d; read_buf := read_buf d;
         read_off := S (read_off d); to_read := to_read d - 1;
         refs := refs d; tmpbuf := Wire.poke (tmpbuf d) (read_off d) b;
         msg_flags := msg_flags d; in_progress := in_progress d;
         zero_copy := zero_copy d; maxmsgsize := maxmsgsize d;
         errno := errno d |}
  | in_message =>
      {| next := next d; read_buf := read_buf d;
         read_off := S (read_off d); to_read := to_read d - 1;
         refs := refs d; tmpbuf := tmpbuf d; msg_flags := msg_flags d;
         in_progress :=
           Msg.with_data
             (Wire.poke (Msg.data (in_progress d)) (read_off d) b)
             (in_progress d);
         zero_copy := zero_copy d; maxmsgsize := maxmsgsize d;
         errno := errno d |}
  end.

(** Modelled from the spec: the transitions [decode] runs once a request
    is satisfied: while no byte is awaited, call the registered step and
    stop at the first result other than 0.  [None] stands for a loop that
    has not ended within [fuel] calls. *)
Fixpoint run_steps (fuel : nat) (alloc : bool) (read_pos : position_t)
    (d : v2_decoder_t) : option (Z * v2_decoder_t) :=
  if negb (to_read d =? 0) then Some (0, d)
  else
    match fuel with
    | O => None
    | S fuel' =>
        let '(rc, d1) := call_next alloc read_pos d in
        if negb (rc =? 0) then Some (rc, d1)
        else run_steps fuel' alloc read_pos d1
    end.

(** No run of the transitions calls more than two steps: a size step is
    followed by at most the message step. *)
Definition max_steps : nat := 2.

(** Modelled from the spec: the consumer loop of [decode].  Each input
    byte is stored and, when it completes the request, the transitions
    run; the loop ends with the input (result 0, more is needed), with a
    completed message (result 1) or with an error (result -1).  [used]
    counts the bytes consumed. *)
Fixpoint decode_bytes (e : call_env) (d : v2_decoder_t) (data : list byte)
    (used : nat) : option (Z * nat * v2_decoder_t) :=
  match data with
  | [] => Some (0, used, d)
  | b :: rest =>
      match run_steps max_steps (alloc_ok e)
              (advance (input e) (S used)) (store b d) with
      | None => None
      | Some (rc, d1) =>
          if negb (rc =? 0) then Some (rc, S used, d1)
          else decode_bytes e d1 rest (S used)
      end
  end.

(** Modelled from the spec: [decode (input, len)] with its result and the
    number of bytes consumed.  A decoder that awaits no byte on entry (it
    was left so by an error) runs its transitions before it copies. *)
Definition decode (e : call_env) (d : v2_decoder_t) (data : list byte)
  : option (Z * nat * v2_decoder_t) :=
  match data with
  | [] => Some (0, 0%nat, d)
  | _ :: _ =>
      match run_steps max_steps (alloc_ok e) (input e) d with
      | None => None
      | Some (rc, d0) =>
          if negb (rc =? 0) then Some (rc, 0%nat, d0)
          else decode_bytes e d0 data 0
      end
  end.

(** The caller of [decode], as the contract of the spec has it: after a
    completed message the caller takes it, leaves [in_progress] empty and
    calls again with the rest of the input; it stops when all input is
    consumed or at an error.  [envs k] is the environment of the [k]-th
    call of [decode]. *)
Fixpoint pump (fuel : nat) (envs : nat -> call_env) (k : nat)
    (d : v2_decoder_t) (data : list byte) (acc : list Msg.msg_t)
  : option (Z * v2_decoder_t * list Msg.msg_t * nat) :=
  match data with
  | [] => Some (0, d, acc, k)
  | _ :: _ =>
      match fuel with
      | O => None
      | S fuel' =>
          match decode (envs k) d data with
          | None => None
          | Some (rc, used, d1) =>
              if rc =? 0 then Some (0, d1, acc, S k)
              else if rc =? 1 then
                let m := in_progress d1 in
                let '(_, m') := Msg.init m in
                pump fuel' envs (S k) (set_in_progress m' d1)
                     (skipn used data) (acc ++ [m])
              else Some (rc, d1, acc, S k)
          end
      end
  end.

(** Feeding a stream that arrives in chunks; an error ends the session. *)
Fixpoint feed (envs : nat -> call_env) (k : nat) (d : v2_decoder_t)
    (chunks : list (list byte)) (acc : list Msg.msg_t)
  : option (Z * v2_decoder_t * list Msg.msg_t * nat) :=
  match chunks with
  | [] => Some (0, d, acc, k)
  | c :: rest =>
      match pump (S (length c)) envs k d c acc with
      | None => None
      | Some (rc, d1, acc1, k1) =>
          if rc =? 0 then feed envs k1 d1 rest acc1
          else Some (rc, d1, acc1, k1)
      end
  end.

(** The messages a chunked stream delivers to a fresh decoder, as the
    receiver observes them, with the final result. *)
Definition receive (envs : nat -> call_env) (maxmsgsize_ : Z)
    (zero_copy_ : bool) (chunks : list (list byte))
  : option (Z * list (Z * Z * list byte)) :=
  match feed envs 0 (create maxmsgsize_ zero_copy_) chunks [] with
  | None => None
  | Some (rc, _, acc, _) => Some (rc, map Msg.view acc)
  end.

(** *** The decoder read one byte at a time

    The reference against which chunked runs are compared: every byte is
    stored and followed by the transitions it triggers; a completed
    message is taken at once.  Memory is always available and the input
    lies in no receive buffer. *)
Definition eat (alloc : bool) (read_pos : position_t) (d : v2_decoder_t)
    (b : byte)
  : option (Z * v2_decoder_t) :=
  run_steps max_steps alloc read_pos (store b d).

Fixpoint absorb (d : v2_decoder_t) (data : list byte)
    (acc : list (Z * Z * list byte))
  : option (Z * v2_decoder_t * list (Z * Z * list byte)) :=
  match data with
  | [] => Some (0, d, acc)
  | b :: rest =>
      match eat true outside d b with
      | None => None
      | Some (rc, d1) =>
          if rc =? 0 then absorb d1 rest acc
          else if rc =? 1 then
            absorb (set_in_progress Msg.empty_msg d1) rest
                   (acc ++ [Msg.view (in_progress d1)])
          else Some (rc, d1, acc)
      end
  end.

(** *** Frames on the wire *)

(** A frame: the flags byte and the payload; the size header follows from
    the two. *)
Record frame_t := {
  wire_flags : byte;
  payload : list byte
}.

Definition payload_size (f : frame_t) : Z := Z.of_nat (length (payload f)).

(** A frame is well formed when its size fits the header its flags byte
    selects: one byte without LARGE, eight bytes with it. *)
Definition well_formed (f : frame_t) : Prop :=
  if test_flag (wire_flags f) large_flag
  then payload_size f < 2 ^ 64
  else payload_size f < 256.

Definition encode_frame (f : frame_t) : list byte :=
  wire_flags f
  :: (if test_flag (wire_flags f) large_flag
      then Wire.put_uint64 (payload_size f)
      else [Wire.byte_of_Z (payload_size f)])
  ++ payload f.

Definition encode_frames (fs : list frame_t) : list byte :=
  concat (map encode_frame fs).

(** The flags of the message a flags byte stands for. *)
Definition message_flags (b : byte) : Z :=
  let f0 := 0 in
  let f1 := if test_flag b more_flag then Z.lor f0 (msg_more P) else f0 in
  if test_flag b command_flag then Z.lor f1 (msg_command P) else f1.

(** The message a frame stands for, as the receiver observes it. *)
Definition message_of (f : frame_t) : Z * Z * list byte :=
  (message_flags (wire_flags f), payload_size f, payload f).

(** A decoder takes a frame when the size passes its two checks. *)
Definition admits (d : v2_decoder_t) (f : frame_t) : Prop :=
  (maxmsgsize d < 0 \/ payload_size f <= maxmsgsize d)
  /\ payload_size f = to_size_t (payload_size f).

(** A decoder between two frames: it awaits a flags byte. *)
Definition awaits_flags (d : v2_decoder_t) : Prop :=
  next d = fn_flags_ready
  /\ read_buf d = in_tmpbuf
  /\ read_off d = 0%nat
  /\ to_read d = 1
  /\ length (tmpbuf d) = 8%nat.

(** A decoder after the size header: it awaits the [n] bytes of the
    payload at the start of the message in progress. *)
Definition awaits_payload (d : v2_decoder_t) (mf n : Z) : Prop :=
  next d = fn_message_ready
  /\ read_buf d = in_message
  /\ read_off d = 0%nat
  /\ to_read d = n
  /\ Msg.flags (in_progress d) = mf
  /\ Msg.data (in_progress d) = repeat x00 (Z.to_nat n)
  /\ length (tmpbuf d) = 8%nat.

(** The input bytes stored one after the other. *)
Definition stores (d : v2_decoder_t) (bs : list byte) : v2_decoder_t :=
  fold_left (fun d b => store b d) bs d.

End Steps.

(** *** Data of the worked examples *)

(** Scenario 2 of the spec: two frames, [ABC] with MORE and [DE]. *)
Definition abc_de_frames : list frame_t :=
  [ {| wire_flags := x01; payload := [x41; x42; x43] |};
    {| wire_flags := x00; payload := [x44; x45] |} ].

Definition abc_de_whole : list (list byte) :=
  [[x01; x03; x41; x42; x43; x00; x02; x44; x45]].

Definition abc_de_bytes : list (list byte) :=
  [[x01]; [x03]; [x41]; [x42]; [x43]; [x00]; [x02]; [x44]; [x45]].

(** Every chunk at the start of a large receive buffer, or at the very end
    of one; memory is available. *)
Definition roomy (k : nat) : call_env :=
  {| input := {| addr := 65536; buf_end := 73728 |}; alloc_ok := true |}.

Definition tight (k : nat) : call_env :=
  {| input := {| addr := 73728; buf_end := 73728 |}; alloc_ok := true |}.

(** Positions in that receive buffer: at its start, and 28 bytes before
    its end. *)
Definition at_start : position_t := {| addr := 65536; buf_end := 73728 |}.
Definition near_end : position_t := {| addr := 73700; buf_end := 73728 |}.

(** A decoder with a limit of two bytes that has met a frame of three. *)
Definition refused_at_3 : v2_decoder_t :=
  match decode lp64 (roomy 0) (create 2 true)
          [x00; x03; x41] with
  | Some (_, _, d) => d
  | None => create 2 true
  end.


(** *** Refused sizes *)

Section Refusal.

Variable P : platform_t.

(** The size [n] fails one of the two checks of [size_ready]. *)
Definition too_large (d : v2_decoder_t) (n : Z) : Prop :=
  (0 <= maxmsgsize d /\ maxmsgsize d < n) \/ n <> to_size_t P n.

(** A decoder stopped by a size it refuses: the size header is complete in
    [tmpbuf], no byte is awaited, and [errno] says why. *)
Definition refused (d : v2_decoder_t) : Prop :=
  to_read d = 0
  /\ errno d = EMSGSIZE
  /\ ((next d = fn_one_byte_size_ready
       /\ too_large d (Wire.byte_val (Wire.peek (tmpbuf d) 0)))
      \/ (next d = fn_eight_byte_size_ready
          /\ too_large d (Wire.get_uint64 (tmpbuf d)))).

(** The flags byte and the size header of a frame, without its payload. *)
Definition encode_header (f : frame_t) : list byte :=
  wire_flags f
  :: (if test_flag (wire_flags f) large_flag
      then Wire.put_uint64 (payload_size f)
      else [Wire.byte_of_Z (payload_size f)]).

(** The three results of a step, with what each leaves behind. *)
Definition step_result (rc : Z) (d' : v2_decoder_t) : Prop :=
  rc = 0
  \/ (rc = 1 /\ next d' = fn_flags_ready /\ to_read d' = 1)
  \/ (rc = -1 /\ (refused d' \/ errno d' = ENOMEM)).

End Refusal.

End V2Decoder.

(** ** The PLAIN client mechanism *)

Module PlainClient.

Inductive state_t :=
| sending_hello
| waiting_for_welcome
| sending_initiate
| waiting_for_ready
| error_command_received
| ready.

Definition state_eqb (a b : state_t) : bool :=
  match a, b with
  | sending_hello, sending_hello
  | waiting_for_welcome, waiting_for_welcome
  | sending_initiate, sending_initiate
  | waiting_for_ready, waiting_for_ready
  | error_command_received, error_command_received
  | ready, ready => true
  | _, _ => false
  end.

(** [mechanism_t::status_t]. *)
Inductive status_t := handshaking | status_ready | status_error.

(** The protocol errors the client reports to its socket. *)
Inductive protocol_error_t :=
| ZMTP_UNEXPECTED_COMMAND
| ZMTP_MALFORMED_COMMAND_WELCOME
| ZMTP_MALFORMED_COMMAND_ERROR
| ZMTP_INVALID_METADATA.

(** What the client tells its collaborators, in the order of the calls:
    [session->get_socket ()->event_handshake_failed_protocol (endpoint, e)]
    and [handle_error_reason (reason, len)] of the base class. *)
Inductive report_t :=
| event_handshake_failed_protocol (e : protocol_error_t)
| handle_error_reason (reason : list byte).

Record plain_client_t := {
  state : state_t;
  plain_username : list byte;
  plain_password : list byte;
  reports : list report_t;
  errno : errno_t
}.

(** The constructor: the handshake starts with the HELLO command. *)
Definition create (username password : list byte) : plain_client_t :=
  {| state := sending_hello; plain_username := username;
     plain_password := password; reports := []; errno := ENONE |}.

Definition set_state (s : state_t) (c : plain_client_t) : plain_client_t :=
  {| state := s; plain_username := plain_username c;
     plain_password := plain_password c; reports := reports c;
     errno := errno c |}.

Definition set_errno (e : errno_t) (c : plain_client_t) : plain_client_t :=
  {| state := state c; plain_username := plain_username c;
     plain_password := plain_password c; reports := reports c;
     errno := e |}.

Definition report (r : report_t) (c : plain_client_t) : plain_client_t :=
  {| state := state c; plain_username := plain_username c;
     plain_password := plain_password c; reports := reports c ++ [r];
     errno := errno c |}.

(** The protocol error path shared by the command handlers: report the
    event, set [errno = EPROTO], return -1. *)
Definition protocol_error (e : protocol_error_t) (c : plain_client_t)
  : Z * plain_client_t :=
  (-1, set_errno EPROTO (report (event_handshake_failed_protocol e) c)).

(** The command names with their length byte. *)
Definition HELLO : list byte := [x05; x48; x45; x4c; x4c; x4f].
Definition WELCOME : list byte := [x07; x57; x45; x4c; x43; x4f; x4d; x45].
Definition READY : list byte := [x05; x52; x45; x41; x44; x59].
Definition ERROR : list byte := [x05; x45; x52; x52; x4f; x52].
Definition INITIATE : list byte :=
  [x08; x49; x4e; x49; x54; x49; x41; x54; x45].

Definition status (c : plain_client_t) : status_t :=
  if state_eqb (state c) ready then status_ready
  else if state_eqb (state c) error_command_received then status_error
  else handshaking.

(** The bytes of a HELLO command. *)
Definition hello_frame (username password : list byte) : list byte :=
  HELLO
  ++ Wire.byte_of_Z (Z.of_nat (length username)) :: username
  ++ Wire.byte_of_Z (Z.of_nat (length password)) :: password.

(** [produce_hello] is [const]: it touches the message only.  The second
    component is the value an allocation failure leaves in [errno]. *)
Definition produce_hello (alloc : bool) (c : plain_client_t)
    (msg : Msg.msg_t) : Z * option errno_t * Msg.msg_t :=
  let username := plain_username c in
  if negb (Z.of_nat (length username) <? 256) then (-1, None, msg)
  else
    let password := plain_password c in
    if negb (Z.of_nat (length password) <? 256) then (-1, None, msg)
    else
      let command_size :=
        6 + 1 + Z.of_nat (length username) + 1
        + Z.of_nat (length password) in
      let '(rc, err, m) := Msg.init_size alloc command_size msg in
      if negb (rc =? 0) then (-1, err, m)
      else
        let buf := Msg.data m in
        let ptr := 0%nat in
        let buf := Wire.memcpy buf ptr HELLO in
        let ptr := (ptr + 6)%nat in
        let buf :=
          Wire.poke buf ptr (Wire.byte_of_Z (Z.of_nat (length username))) in
        let ptr := S ptr in
        let buf := Wire.memcpy buf ptr username in
        let ptr := (ptr + length username)%nat in
        let buf :=
          Wire.poke buf ptr (Wire.byte_of_Z (Z.of_nat (length password))) in
        let ptr := S ptr in
        let buf := Wire.memcpy buf ptr password in
        (0, err, Msg.with_data buf m).

(** [process_welcome]; [cmd_data] is unused. *)
Definition process_welcome (data_size : Z) (c : plain_client_t)
  : Z * plain_client_t :=
  if negb (state_eqb (state c) waiting_for_welcome)
  then protocol_error ZMTP_UNEXPECTED_COMMAND c
  else if negb (data_size =? 8)
  then protocol_error ZMTP_MALFORMED_COMMAND_WELCOME c
  else (0, set_state sending_initiate c).

Definition process_error (cmd_data : list byte) (data_size : Z)
    (c : plain_client_t) : Z * plain_client_t :=
  if negb (state_eqb (state c) waiting_for_welcome)
     && negb (state_eqb (state c) waiting_for_ready)
  then protocol_error ZMTP_UNEXPECTED_COMMAND c
  else if data_size <? 7
  then protocol_error ZMTP_MALFORMED_COMMAND_ERROR c
  else
    let error_reason_len := Wire.byte_val (Wire.peek cmd_data 6) in
    if data_size - 7 <? error_reason_len
    then protocol_error ZMTP_MALFORMED_COMMAND_ERROR c
    else
      let error_reason :=
        firstn (Z.to_nat error_reason_len) (skipn 7 cmd_data) in
      (0, set_state error_command_received
            (report (handle_error_reason error_reason) c)).

(** The transitions of the handshake, by the command that is produced or
    consumed. *)
Inductive action_t :=
| produced_hello
| received_welcome
| produced_initiate
| received_ready
| received_error.

Inductive handshake_step : state_t -> action_t -> state_t -> Prop :=
| step_hello :
    handshake_step sending_hello produced_hello waiting_for_welcome
| step_welcome :
    handshake_step waiting_for_welcome received_welcome sending_initiate
| step_initiate :
    handshake_step sending_initiate produced_initiate waiting_for_ready
| step_ready :
    handshake_step waiting_for_ready received_ready ready
| step_error_welcome :
    handshake_step waiting_for_welcome received_error
      error_command_received
| step_error_ready :
    handshake_step waiting_for_ready received_error error_command_received.

(** The successful calls that lead from a state to [ready], if any do. *)
Definition path_to_ready (s : state_t) : option (list (option action_t)) :=
  match s with
  | sending_hello =>
      Some [Some produced_hello; Some received_welcome;
            Some produced_initiate; Some received_ready]
  | waiting_for_welcome =>
      Some [Some received_welcome; Some produced_initiate;
            Some received_ready]
  | sending_initiate => Some [Some produced_initiate; Some received_ready]
  | waiting_for_ready => Some [Some received_ready]
  | ready => Some []
  | error_command_received => None
  end.

Section Mechanism.

(** Members of the base classes, which are not part of the sources at
    hand: the parser of the metadata of READY, with its result code and
    the [errno] it leaves when it writes one, and the builder of a command
    that carries the socket's basic properties. *)
Variable parse_metadata : list byte -> Z * option errno_t.
Variable make_command_with_basic_properties :
  Msg.msg_t -> list byte -> Msg.msg_t.

Definition produce_initiate (c : plain_client_t) (msg : Msg.msg_t)
  : Z * Msg.msg_t :=
  (0, make_command_with_basic_properties msg INITIATE).

Definition process_ready (cmd_data : list byte) (data_size : Z)
    (c : plain_client_t) : Z * plain_client_t :=
  if negb (state_eqb (state c) waiting_for_ready)
  then protocol_error ZMTP_UNEXPECTED_COMMAND c
  else
    let '(rc, err) := parse_metadata (skipn 6 cmd_data) in
    let c1 := set_errno (errno_after err (errno c)) c in
    if rc =? 0 then (rc, set_state ready c1)
    else
      (rc, report (event_handshake_failed_protocol ZMTP_INVALID_METADATA) c1).

Definition next_handshake_command (alloc : bool) (c : plain_client_t)
    (msg : Msg.msg_t) : Z * plain_client_t * Msg.msg_t :=
  match state c with
  | sending_hello =>
      let '(rc, err, m) := produce_hello alloc c msg in
      let c1 := set_errno (errno_after err (errno c)) c in
      if rc =? 0 then (rc, set_state waiting_for_welcome c1, m)
      else (rc, c1, m)
  | sending_initiate =>
      let '(rc, m) := produce_initiate c msg in
      if rc =? 0 then (rc, set_state waiting_for_ready c, m)
      else (rc, c, m)
  | _ => (-1, set_errno EAGAIN c, msg)
  end.

Definition process_handshake_command (c : plain_client_t)
    (msg : Msg.msg_t) : Z * plain_client_t * Msg.msg_t :=
  let cmd_data := Msg.data msg in
  let data_size := Msg.size msg in
  let '(rc, c1) :=
    if (8 <=? data_size) && Wire.memcmp0 cmd_data WELCOME
    then process_welcome data_size c
    else if (6 <=? data_size) && Wire.memcmp0 cmd_data READY
    then process_ready cmd_data data_size c
    else if (6 <=? data_size) && Wire.memcmp0 cmd_data ERROR
    then process_error cmd_data data_size c
    else protocol_error ZMTP_UNEXPECTED_COMMAND c in
  if rc =? 0 then
    let '(rc1, m1) := Msg.close msg in
    if negb (rc1 =? 0) then (-1, c1, m1)
    else
      let '(rc2, m2) := Msg.init m1 in
      if negb (rc2 =? 0) then (-1, c1, m2)
      else (rc2, c1, m2)
  else (rc, c1, msg).

(** The command handler selected by the name of the message, before the
    message is released. *)
Definition dispatch (c : plain_client_t) (msg : Msg.msg_t)
  : Z * plain_client_t :=
  if (8 <=? Msg.size msg) && Wire.memcmp0 (Msg.data msg) WELCOME
  then process_welcome (Msg.size msg) c
  else if (6 <=? Msg.size msg) && Wire.memcmp0 (Msg.data msg) READY
  then process_ready (Msg.data msg)
         (Msg.size msg) c
  else if (6 <=? Msg.size msg) && Wire.memcmp0 (Msg.data msg) ERROR
  then process_error (Msg.data msg) (Msg.size msg) c
  else protocol_error ZMTP_UNEXPECTED_COMMAND c.

(** One call of the session into the mechanism. *)
Inductive call_t :=
| call_next (alloc : bool)
| call_process (msg : Msg.msg_t).

Definition perform (c : plain_client_t) (k : call_t) : Z * plain_client_t :=
  match k with
  | call_next alloc =>
      let '(rc, c1, _) := next_handshake_command alloc c Msg.empty_msg in
      (rc, c1)
  | call_process msg =>
      let '(rc, c1, _) := process_handshake_command c msg in
      (rc, c1)
  end.

(** The command a call is about: for a produced command the one that the
    state selects, for a consumed one the one its name selects. *)
Definition action_of (c : plain_client_t) (k : call_t) : option action_t :=
  match k with
  | call_next _ =>
      match state c with
      | sending_hello => Some produced_hello
      | sending_initiate => Some produced_initiate
      | _ => None
      end
  | call_process msg =>
      if (8 <=? Msg.size msg) && Wire.memcmp0 (Msg.data msg) WELCOME
      then Some received_welcome
      else if (6 <=? Msg.size msg) && Wire.memcmp0 (Msg.data msg) READY
      then Some received_ready
      else if (6 <=? Msg.size msg) && Wire.memcmp0 (Msg.data msg) ERROR
      then Some received_error
      else None
  end.

(** The client after a sequence of calls. *)
Fixpoint run (c : plain_client_t) (ks : list call_t) : plain_client_t :=
  match ks with
  | [] => c
  | k :: rest => run (snd (perform c k)) rest
  end.

(** The successful calls of a sequence, in order, by what they did. *)
Fixpoint successes (c : plain_client_t) (ks : list call_t)
  : list (option action_t) :=
  match ks with
  | [] => []
  | k :: rest =>
      let '(rc, c1) := perform c k in
      if rc =? 0 then action_of c k :: successes c1 rest
      else successes c1 rest
  end.

(** The calls of a handshake with a peer that answers WELCOME and READY
    (the latter without metadata). *)
Definition cooperative_calls : list call_t :=
  [call_next true;
   call_process (Msg.with_data WELCOME Msg.empty_msg);
   call_next true;
   call_process (Msg.with_data READY Msg.empty_msg)].

End Mechanism.

(** The sequences of successful calls that lead from a state to
    [error_command_received]. *)
Definition paths_to_error (s : state_t) : list (list (option action_t)) :=
  match s with
  | sending_hello =>
      [[Some produced_hello; Some received_error];
       [Some produced_hello; Some received_welcome;
        Some produced_initiate; Some received_error]]
  | waiting_for_welcome =>
      [[Some received_error];
       [Some received_welcome; Some produced_initiate;
        Some received_error]]
  | sending_initiate => [[Some produced_initiate; Some received_error]]
  | waiting_for_ready => [[Some received_error]]
  | error_command_received => [[]]
  | ready => []
  end.

(** The number of successful calls a state still allows. *)
Definition steps_left (s : state_t) : nat :=
  match s with
  | sending_hello => 4
  | waiting_for_welcome => 3
  | sending_initiate => 2
  | waiting_for_ready => 1
  | error_command_received => 0
  | ready => 0
  end.

End PlainClient.

(** * Properties *)

(** ** Buffers *)

Module WireFacts.

Import Wire.

Lemma poke_app (pre : list byte) (x b : byte) (post : list byte) :
  poke (pre ++ x :: post) (length pre) b = pre ++ b :: post.
Proof.
  induction pre as [|h pre IH]; simpl.
  - reflexivity.
  - now rewrite IH.
Qed.

Lemma memcpy_app (src pre old post : list byte) :
  length old = length src ->
  memcpy (pre ++ old ++ post) (length pre) src = pre ++ src ++ post.
Proof.
  revert pre old.
  induction src as [|b src IH]; intros pre old Hlen.
  - destruct old; [reflexivity | discriminate].
  - destruct old as [|x old]; [discriminate|].
    simpl in Hlen. injection Hlen as Hlen.
    cbn [memcpy app].
    rewrite poke_app.
    replace (S (length pre)) with (length (pre ++ [b]))
      by (rewrite length_app; simpl; lia).
    replace (pre ++ b :: old ++ post) with ((pre ++ [b]) ++ old ++ post)
      by (rewrite <- app_assoc; reflexivity).
    rewrite (IH (pre ++ [b]) old Hlen).
    rewrite <- app_assoc. reflexivity.
Qed.

Lemma byte_val_range (b : byte) : 0 <= byte_val b < 256.
Proof.
  unfold byte_val.
  pose proof (Byte.to_N_bounded b) as H.
  lia.
Qed.

Lemma bytes_eqb_eq (a b : list byte) : bytes_eqb a b = true <-> a = b.
Proof.
  revert b. induction a as [|x a IH]; intros [|y b]; simpl;
    try (split; [reflexivity | reflexivity]);
    try (split; discriminate).
  rewrite andb_true_iff, IH. split.
  - intros [Hx ->]. now rewrite (Byte.byte_dec_bl _ _ Hx).
  - intros H. injection H as -> ->. split; [|reflexivity].
    now apply Byte.byte_dec_lb.
Qed.

Lemma byte_of_Z_val (z : Z) : 0 <= z < 256 -> byte_val (byte_of_Z z) = z.
Proof.
  intros Hz. unfold byte_of_Z, byte_val.
  rewrite Z.mod_small by lia.
  destruct (Byte.of_N (Z.to_N z)) as [b|] eqn:E.
  - apply Byte.to_of_N in E. rewrite E. lia.
  - apply Byte.of_N_None_iff in E. lia.
Qed.

Lemma byte_of_Z_mod (z : Z) : byte_val (byte_of_Z z) = z mod 256.
Proof.
  pose proof (Z.mod_pos_bound z 256 ltac:(lia)) as Hm.
  unfold byte_of_Z, byte_val.
  destruct (Byte.of_N (Z.to_N (z mod 256))) as [b|] eqn:E.
  - apply Byte.to_of_N in E. rewrite E. lia.
  - apply Byte.of_N_None_iff in E. lia.
Qed.

Lemma lor_shiftl_add (hi lo k : Z) :
  0 <= k -> 0 <= lo < 2 ^ k ->
  Z.lor (Z.shiftl hi k) lo = hi * 2 ^ k + lo.
Proof.
  intros Hk Hlo.
  assert (Hland : Z.land (Z.shiftl hi k) lo = 0).
  { apply Z.bits_inj'. intros n Hn.
    rewrite Z.land_spec, Z.bits_0.
    destruct (Z.lt_ge_cases n k) as [Hlt|Hge].
    - rewrite Z.shiftl_spec_low by lia. reflexivity.
    - rewrite <- (Z.mod_small lo (2 ^ k)) by lia.
      rewrite Z.mod_pow2_bits_high by lia. apply andb_false_r. }
  rewrite <- Z.lxor_lor by exact Hland.
  rewrite <- Z.add_nocarry_lxor by exact Hland.
  now rewrite Z.shiftl_mul_pow2.
Qed.

(** [get_uint64] reads its eight bytes most significant byte first. *)
Lemma get_uint64_be_value (b0 b1 b2 b3 b4 b5 b6 b7 : byte)
    (rest : list byte) :
  get_uint64 (b0 :: b1 :: b2 :: b3 :: b4 :: b5 :: b6 :: b7 :: rest)
  = be_value [b0; b1; b2; b3; b4; b5; b6; b7].
Proof.
  unfold get_uint64, be_value, peek. cbn [nth fold_left].
  pose proof (byte_val_range b0). pose proof (byte_val_range b1).
  pose proof (byte_val_range b2). pose proof (byte_val_range b3).
  pose proof (byte_val_range b4). pose proof (byte_val_range b5).
  pose proof (byte_val_range b6). pose proof (byte_val_range b7).
  rewrite (lor_shiftl_add (byte_val b6) _ 8) by lia.
  rewrite (lor_shiftl_add (byte_val b5) _ 16) by lia.
  rewrite (lor_shiftl_add (byte_val b4) _ 24) by lia.
  rewrite (lor_shiftl_add (byte_val b3) _ 32) by lia.
  rewrite (lor_shiftl_add (byte_val b2) _ 40) by lia.
  rewrite (lor_shiftl_add (byte_val b1) _ 48) by lia.
  rewrite (lor_shiftl_add (byte_val b0) _ 56) by lia.
  lia.
Qed.

(** [put_uint64] writes the eight bytes [get_uint64] reads back. *)
Lemma be_value_put_uint64 (z : Z) :
  0 <= z < 2 ^ 64 -> be_value (put_uint64 z) = z.
Proof.
  intros Hz. unfold put_uint64, be_value. cbn [map fold_left].
  rewrite !byte_of_Z_mod, !Z.shiftr_div_pow2 by lia.
  change (8 * Z.of_nat 7) with 56. change (8 * Z.of_nat 6) with 48.
  change (8 * Z.of_nat 5) with 40. change (8 * Z.of_nat 4) with 32.
  change (8 * Z.of_nat 3) with 24. change (8 * Z.of_nat 2) with 16.
  change (8 * Z.of_nat 1) with 8. change (8 * Z.of_nat 0) with 0.
  change (2 ^ 0) with 1. rewrite Z.div_1_r.
  replace (z / 2 ^ 8) with (z / 256) by reflexivity.
  replace (z / 2 ^ 16) with (z / 256 / 256)
    by (rewrite Z.div_div by lia; reflexivity).
  replace (z / 2 ^ 24) with (z / 256 / 256 / 256)
    by (rewrite !Z.div_div by lia; reflexivity).
  replace (z / 2 ^ 32) with (z / 256 / 256 / 256 / 256)
    by (rewrite !Z.div_div by lia; reflexivity).
  replace (z / 2 ^ 40) with (z / 256 / 256 / 256 / 256 / 256)
    by (rewrite !Z.div_div by lia; reflexivity).
  replace (z / 2 ^ 48) with (z / 256 / 256 / 256 / 256 / 256 / 256)
    by (rewrite !Z.div_div by lia; reflexivity).
  replace (z / 2 ^ 56) with (z / 256 / 256 / 256 / 256 / 256 / 256 / 256)
    by (rewrite !Z.div_div by lia; reflexivity).
  change (2 ^ 64) with 18446744073709551616 in Hz.
  Z.to_euclidean_division_equations. lia.
Qed.

Lemma get_uint64_put_uint64 (z : Z) (rest : list byte) :
  0 <= z < 2 ^ 64 -> get_uint64 (put_uint64 z ++ rest) = z.
Proof.
  intros Hz. rewrite <- (be_value_put_uint64 z Hz) at 2.
  unfold put_uint64. cbn [map app]. apply get_uint64_be_value.
Qed.

Lemma byte_of_Z_byte_val (b : byte) : byte_of_Z (byte_val b) = b.
Proof.
  pose proof (byte_val_range b) as Hr.
  unfold byte_of_Z. rewrite Z.mod_small by exact Hr.
  unfold byte_val. rewrite N2Z.id, Byte.of_to_N. reflexivity.
Qed.

Lemma byte_of_Z_eq (z : Z) (b : byte) :
  z mod 256 = byte_val b -> byte_of_Z z = b.
Proof.
  intros H. rewrite <- (byte_of_Z_byte_val b), <- H.
  unfold byte_of_Z. now rewrite Z.mod_mod by lia.
Qed.

(** Every eight bytes are the image of the value they stand for. *)
Lemma put_uint64_be_value (b0 b1 b2 b3 b4 b5 b6 b7 : byte) :
  put_uint64 (be_value [b0; b1; b2; b3; b4; b5; b6; b7])
  = [b0; b1; b2; b3; b4; b5; b6; b7].
Proof.
  pose proof (byte_val_range b0). pose proof (byte_val_range b1).
  pose proof (byte_val_range b2). pose proof (byte_val_range b3).
  pose proof (byte_val_range b4). pose proof (byte_val_range b5).
  pose proof (byte_val_range b6). pose proof (byte_val_range b7).
  unfold put_uint64, be_value. cbn [map fold_left].
  rewrite !Z.shiftr_div_pow2 by lia.
  change (8 * Z.of_nat 7) with 56. change (8 * Z.of_nat 6) with 48.
  change (8 * Z.of_nat 5) with 40. change (8 * Z.of_nat 4) with 32.
  change (8 * Z.of_nat 3) with 24. change (8 * Z.of_nat 2) with 16.
  change (8 * Z.of_nat 1) with 8. change (8 * Z.of_nat 0) with 0.
  change (2 ^ 0) with 1. change (2 ^ 8) with 256.
  change (2 ^ 16) with 65536. change (2 ^ 24) with 16777216.
  change (2 ^ 32) with 4294967296. change (2 ^ 40) with 1099511627776.
  change (2 ^ 48) with 281474976710656.
  change (2 ^ 56) with 72057594037927936.
  repeat (f_equal; [apply byte_of_Z_eq;
                    Z.to_euclidean_division_equations; lia|]).
  f_equal. apply byte_of_Z_eq. Z.to_euclidean_division_equations. lia.
Qed.

Lemma be_value_range (b0 b1 b2 b3 b4 b5 b6 b7 : byte) :
  0 <= be_value [b0; b1; b2; b3; b4; b5; b6; b7] < 2 ^ 64.
Proof.
  pose proof (byte_val_range b0). pose proof (byte_val_range b1).
  pose proof (byte_val_range b2). pose proof (byte_val_range b3).
  pose proof (byte_val_range b4). pose proof (byte_val_range b5).
  pose proof (byte_val_range b6). pose proof (byte_val_range b7).
  unfold be_value. cbn [fold_left].
  change (2 ^ 64) with 18446744073709551616. lia.
Qed.

End WireFacts.

(** ** The framing decoder *)

Module V2DecoderFacts.

Import V2Decoder.

Section Steps.

Variable P : platform_t.

Lemma size_ready_too_large (alloc : bool) (msg_size : Z)
    (read_pos : position_t) (d : v2_decoder_t) :
  (0 <= maxmsgsize d /\ maxmsgsize d < msg_size)
  \/ msg_size <> to_size_t P msg_size ->
  size_ready P alloc msg_size read_pos d = (-1, set_errno EMSGSIZE d).
Proof.
  intros H. unfold size_ready.
  destruct (Z.leb_spec 0 (maxmsgsize d));
    destruct (Z.ltb_spec (maxmsgsize d) msg_size); cbn [andb];
    try reflexivity;
    (destruct (Z.eqb_spec msg_size (to_size_t P msg_size));
     [|reflexivity]); exfalso; lia.
Qed.

(** The result of [size_ready] once the size has passed both checks, by
    the answer of the initialisation that runs. *)
Lemma size_ready_within (alloc : bool) (msg_size : Z)
    (read_pos : position_t) (d : v2_decoder_t) :
  (maxmsgsize d < 0 \/ msg_size <= maxmsgsize d) ->
  msg_size = to_size_t P msg_size ->
  let init :=
    if negb (zero_copy d)
       || (buf_end read_pos <? ptr_add P (addr read_pos) msg_size)
    then Msg.init_size alloc msg_size (Msg.closed)
    else Msg.init_external P alloc msg_size (Msg.closed) in
  let d1 :=
    if negb (zero_copy d)
       || (buf_end read_pos <? ptr_add P (addr read_pos) msg_size)
    then d
    else if Msg.is_zcmsg (snd init) then inc_ref d else d in
  size_ready P alloc msg_size read_pos d
  = if fst (fst init) =? 0
    then (0, next_step in_message (Msg.size (snd init)) fn_message_ready
               (set_in_progress
                  (Msg.set_flags (msg_flags d) (snd init))
                  (set_errno (errno d) (set_in_progress (snd init) d1))))
    else (-1, set_errno ENOMEM
                (set_in_progress Msg.empty_msg
                   (set_errno ENOMEM (set_in_progress Msg.closed d1)))).
Proof.
  intros Hmax Hfit init d1. unfold size_ready.
  replace ((0 <=? maxmsgsize d) && (maxmsgsize d <? msg_size)) with false
    by (symmetry; apply andb_false_iff;
        rewrite Z.leb_gt, Z.ltb_ge; lia).
  rewrite <- Hfit, Z.eqb_refl. cbn [negb Msg.close].
  subst init d1.
  destruct (negb (zero_copy d)
            || (buf_end read_pos <? ptr_add P (addr read_pos) msg_size)).
  - unfold Msg.init_size. destruct alloc; reflexivity.
  - unfold Msg.init_external, Msg.init_size.
    destruct (msg_size <? max_vsm_size P); [destruct alloc|];
      reflexivity.
Qed.

(** C3: a size above a nonnegative [maxmsgsize], or one that does not fit
    [size_t], makes [size_ready] fail with [errno = EMSGSIZE]; a size
    equal to [maxmsgsize] (that fits [size_t], with memory for the
    message) is accepted, and [maxmsgsize + 1] is rejected. *)
Theorem size_ready_limit (alloc : bool) (read_pos : position_t)
    (d : v2_decoder_t) :
  (forall msg_size,
     0 <= maxmsgsize d -> maxmsgsize d < msg_size ->
     size_ready P alloc msg_size read_pos d = (-1, set_errno EMSGSIZE d))
  /\ (forall msg_size,
        msg_size <> to_size_t P msg_size ->
        size_ready P alloc msg_size read_pos d = (-1, set_errno EMSGSIZE d))
  /\ (0 <= maxmsgsize d ->
      maxmsgsize d = to_size_t P (maxmsgsize d) ->
      let r := size_ready P true (maxmsgsize d) read_pos d in
      fst r = 0
      /\ next (snd r) = fn_message_ready
      /\ to_read (snd r) = maxmsgsize d
      /\ Msg.size (in_progress (snd r)) = maxmsgsize d
      /\ Msg.flags (in_progress (snd r)) = msg_flags d)
  /\ (0 <= maxmsgsize d ->
      size_ready P alloc (maxmsgsize d + 1) read_pos d
      = (-1, set_errno EMSGSIZE d)).
Proof.
  split; [|split; [|split]].
  - intros msg_size H0 H1. apply size_ready_too_large. left. lia.
  - intros msg_size H. apply size_ready_too_large. right. exact H.
  - intros H0 Hfit r. subst r.
    rewrite (size_ready_within true (maxmsgsize d) read_pos d
               ltac:(right; lia) Hfit).
    assert (Hlen : Z.of_nat (length (repeat x00 (Z.to_nat (maxmsgsize d))))
                   = maxmsgsize d)
      by (rewrite repeat_length; lia).
    destruct (negb (zero_copy d)
              || (buf_end read_pos
                  <? ptr_add P (addr read_pos) (maxmsgsize d))).
    + unfold Msg.size.
      cbn [Msg.init_size fst snd Z.eqb next_step next to_read in_progress
           set_in_progress Msg.set_flags Msg.flags Msg.kind Msg.data].
      rewrite Hlen. repeat split.
    + unfold Msg.init_external, Msg.init_size, Msg.size.
      destruct (maxmsgsize d <? max_vsm_size P);
        cbn [fst snd Z.eqb next_step next to_read in_progress
             set_in_progress Msg.set_flags Msg.flags Msg.kind Msg.data];
        rewrite Hlen; repeat split.
  - intros H0. apply size_ready_too_large. left. lia.
Qed.

(** C8: whenever [size_ready] returns an error, [in_progress] is either
    the message it was before the call (the size was refused, nothing was
    touched) or the empty message (the initialisation failed and the
    message was reset); the failure of the initialisation always ends in
    the reset, with [errno = ENOMEM], and so does in particular the
    failure of [init_size], which runs without zero-copy or when the
    pointer sum [read_pos + msg_size] lies past the end of the receive
    buffer. *)
Theorem size_ready_error_leaves_in_progress_clean
    (alloc : bool) (msg_size : Z) (read_pos : position_t)
    (d : v2_decoder_t) :
  let r := size_ready P alloc msg_size read_pos d in
  (fst r <> 0 ->
   fst r = -1
   /\ ((errno (snd r) = EMSGSIZE /\ in_progress (snd r) = in_progress d)
       \/ (errno (snd r) = ENOMEM
           /\ in_progress (snd r) = Msg.empty_msg)))
  /\ ((maxmsgsize d < 0 \/ msg_size <= maxmsgsize d) ->
      msg_size = to_size_t P msg_size ->
      fst (fst (if negb (zero_copy d)
                   || (buf_end read_pos
                       <? ptr_add P (addr read_pos) msg_size)
                then Msg.init_size alloc msg_size Msg.closed
                else Msg.init_external P alloc msg_size Msg.closed))
      <> 0 ->
      fst r = -1
      /\ errno (snd r) = ENOMEM
      /\ in_progress (snd r) = Msg.empty_msg)
  /\ ((maxmsgsize d < 0 \/ msg_size <= maxmsgsize d) ->
      msg_size = to_size_t P msg_size ->
      negb (zero_copy d)
      || (buf_end read_pos <? ptr_add P (addr read_pos) msg_size) = true ->
      alloc = false ->
      r = (-1, set_errno ENOMEM
                 (set_in_progress Msg.empty_msg
                    (set_errno ENOMEM (set_in_progress Msg.closed d))))).
Proof.
  intros r. subst r.
  assert (Hin :
    (maxmsgsize d < 0 \/ msg_size <= maxmsgsize d) ->
    msg_size = to_size_t P msg_size ->
    fst (size_ready P alloc msg_size read_pos d) <> 0 ->
    fst (size_ready P alloc msg_size read_pos d) = -1
    /\ errno (snd (size_ready P alloc msg_size read_pos d)) = ENOMEM
    /\ in_progress (snd (size_ready P alloc msg_size read_pos d))
       = Msg.empty_msg).
  { intros Hmax Hfit.
    rewrite (size_ready_within alloc msg_size read_pos d Hmax Hfit).
    match goal with
    | |- context [fst (fst ?i) =? 0] => destruct (fst (fst i) =? 0)
    end; cbn [fst snd]; intros Hrc; [contradiction|].
    repeat split. }
  split.
  - intros Hrc.
    destruct (Z.lt_ge_cases (maxmsgsize d) 0) as [Hneg|Hnn];
      [|destruct (Z.le_gt_cases msg_size (maxmsgsize d)) as [Hle|Hgt]].
    + destruct (Z.eq_dec msg_size (to_size_t P msg_size)) as [Hfit|Hfit].
      * destruct (Hin (or_introl Hneg) Hfit Hrc) as [H1 [H2 H3]].
        split; [exact H1|]. right. split; assumption.
      * rewrite size_ready_too_large by (right; exact Hfit).
        split; [reflexivity|]. left. split; reflexivity.
    + destruct (Z.eq_dec msg_size (to_size_t P msg_size)) as [Hfit|Hfit].
      * destruct (Hin (or_intror Hle) Hfit Hrc) as [H1 [H2 H3]].
        split; [exact H1|]. right. split; assumption.
      * rewrite size_ready_too_large by (right; exact Hfit).
        split; [reflexivity|]. left. split; reflexivity.
    + rewrite size_ready_too_large by (left; lia).
      split; [reflexivity|]. left. split; reflexivity.
  - split.
    + intros Hmax Hfit Hinit.
      rewrite (size_ready_within alloc msg_size read_pos d Hmax Hfit).
      match goal with
      | |- context [fst (fst ?i) =? 0] =>
          destruct (Z.eqb_spec (fst (fst i)) 0)
      end; [contradiction|]. cbn [fst snd]. repeat split.
    + intros Hmax Hfit Hown ->.
      rewrite (size_ready_within false msg_size read_pos d Hmax Hfit).
      rewrite Hown. reflexivity.
Qed.

(** *** Chunked runs against the run byte by byte *)

Ltac alike_inv H :=
  unfold alike, shape in H;
  injection H as ?Hnext ?Hbuf ?Hoff ?Hto ?Htmp ?Hmf ?Hfl ?Hdata ?Hmax.

Lemma store_alike (b : byte) (d1 d2 : v2_decoder_t) :
  alike d1 d2 -> alike (store b d1) (store b d2).
Proof.
  intros H. alike_inv H. unfold alike, shape, store.
  rewrite Hbuf. destruct (read_buf d2);
    cbn [next read_buf read_off to_read tmpbuf msg_flags in_progress
         maxmsgsize Msg.with_data Msg.flags Msg.data];
    congruence.
Qed.

Lemma size_ready_alike (msg_size : Z) (r1 r2 : position_t)
    (d1 d2 : v2_decoder_t) :
  alike d1 d2 ->
  fst (size_ready P true msg_size r1 d1)
  = fst (size_ready P true msg_size r2 d2)
  /\ alike (snd (size_ready P true msg_size r1 d1))
           (snd (size_ready P true msg_size r2 d2)).
Proof.
  intros H. alike_inv H.
  destruct (Z.eq_dec msg_size (to_size_t P msg_size)) as [Hfit|Hfit];
    [destruct (Z.lt_ge_cases (maxmsgsize d2) 0) as [Hneg|Hnn];
     [|destruct (Z.le_gt_cases msg_size (maxmsgsize d2)) as [Hle|Hgt]]|].
  - rewrite (size_ready_within true msg_size r1 d1) by (auto; lia).
    rewrite (size_ready_within true msg_size r2 d2) by (auto; lia).
    unfold Msg.init_external, Msg.init_size.
    destruct (negb (zero_copy d1)
              || (buf_end r1 <? ptr_add P (addr r1) msg_size));
      destruct (negb (zero_copy d2)
                || (buf_end r2 <? ptr_add P (addr r2) msg_size));
      destruct (msg_size <? max_vsm_size P);
      cbn [fst snd Z.eqb]; (split; [reflexivity|]);
      unfold alike, shape, Msg.size;
      cbn [next_step set_in_progress set_errno inc_ref Msg.is_zcmsg
           Msg.kind Msg.set_flags Msg.flags Msg.data Msg.size
           next read_buf read_off to_read tmpbuf msg_flags in_progress
           maxmsgsize];
      congruence.
  - rewrite (size_ready_within true msg_size r1 d1) by (auto; lia).
    rewrite (size_ready_within true msg_size r2 d2) by (auto; lia).
    unfold Msg.init_external, Msg.init_size.
    destruct (negb (zero_copy d1)
              || (buf_end r1 <? ptr_add P (addr r1) msg_size));
      destruct (negb (zero_copy d2)
                || (buf_end r2 <? ptr_add P (addr r2) msg_size));
      destruct (msg_size <? max_vsm_size P);
      cbn [fst snd Z.eqb]; (split; [reflexivity|]);
      unfold alike, shape, Msg.size;
      cbn [next_step set_in_progress set_errno inc_ref Msg.is_zcmsg
           Msg.kind Msg.set_flags Msg.flags Msg.data Msg.size
           next read_buf read_off to_read tmpbuf msg_flags in_progress
           maxmsgsize];
      congruence.
  - rewrite !size_ready_too_large by (left; lia).
    split; [reflexivity|]. unfold alike, shape.
    cbn [snd set_errno next read_buf read_off to_read tmpbuf msg_flags
         in_progress maxmsgsize]. congruence.
  - rewrite !size_ready_too_large by (right; exact Hfit).
    split; [reflexivity|]. unfold alike, shape.
    cbn [snd set_errno next read_buf read_off to_read tmpbuf msg_flags
         in_progress maxmsgsize]. congruence.
Qed.

Lemma call_next_alike (r1 r2 : position_t) (d1 d2 : v2_decoder_t) :
  alike d1 d2 ->
  fst (call_next P true r1 d1) = fst (call_next P true r2 d2)
  /\ alike (snd (call_next P true r1 d1)) (snd (call_next P true r2 d2)).
Proof.
  intros H. pose proof H as H'. alike_inv H'.
  unfold call_next. rewrite Hnext. destruct (next d2).
  - unfold flags_ready. rewrite Htmp.
    destruct (test_flag (Wire.peek (tmpbuf d2) 0) large_flag);
      cbn [fst snd]; (split; [reflexivity|]); unfold alike, shape;
      cbn [next_step set_msg_flags next read_buf read_off to_read tmpbuf
           msg_flags in_progress maxmsgsize]; congruence.
  - unfold one_byte_size_ready. rewrite Htmp.
    apply size_ready_alike. exact H.
  - unfold eight_byte_size_ready. rewrite Htmp.
    apply size_ready_alike. exact H.
  - unfold message_ready. cbn [fst snd]. split; [reflexivity|].
    unfold alike, shape.
    cbn [next_step next read_buf read_off to_read tmpbuf msg_flags
         in_progress maxmsgsize]. congruence.
Qed.

Lemma run_steps_alike (fuel : nat) (r1 r2 : position_t) (d1 d2 : v2_decoder_t) :
  alike d1 d2 ->
  match run_steps P fuel true r1 d1, run_steps P fuel true r2 d2 with
  | Some (rc1, d1'), Some (rc2, d2') => rc1 = rc2 /\ alike d1' d2'
  | None, None => True
  | _, _ => False
  end.
Proof.
  revert d1 d2. induction fuel as [|fuel IH]; intros d1 d2 H;
    pose proof H as H'; alike_inv H'; cbn [run_steps]; rewrite Hto;
    destruct (to_read d2 =? 0); cbn [negb]; try (split; [reflexivity|exact H]).
  - exact I.
  - pose proof (call_next_alike r1 r2 d1 d2 H) as [Hrc Hd].
    destruct (call_next P true r1 d1) as [rc1 d1'].
    destruct (call_next P true r2 d2) as [rc2 d2'].
    cbn [fst snd] in Hrc, Hd. subst rc2.
    destruct (rc1 =? 0); cbn [negb].
    + apply IH. exact Hd.
    + split; [reflexivity | exact Hd].
Qed.

Lemma size_ready_result (alloc : bool) (msg_size : Z) (read_pos : position_t)
    (d : v2_decoder_t) :
  fst (size_ready P alloc msg_size read_pos d) = -1
  \/ (fst (size_ready P alloc msg_size read_pos d) = 0
      /\ next (snd (size_ready P alloc msg_size read_pos d))
         = fn_message_ready).
Proof.
  destruct (Z.eq_dec msg_size (to_size_t P msg_size)) as [Hfit|Hfit];
    [destruct (Z.lt_ge_cases (maxmsgsize d) 0) as [Hneg|Hnn];
     [|destruct (Z.le_gt_cases msg_size (maxmsgsize d)) as [Hle|Hgt]]|];
    try (rewrite size_ready_too_large by (auto; lia); left; reflexivity);
    rewrite (size_ready_within alloc msg_size read_pos d) by (auto; lia);
    match goal with
    | |- context [fst (fst ?i) =? 0] => destruct (fst (fst i) =? 0)
    end; cbn [fst snd next_step next]; auto.
Qed.

(** The transitions end within [max_steps] calls, whatever the state;
    they return 0 or 1 only with a byte awaited. *)
Lemma run_steps_total (alloc : bool) (read_pos : position_t)
    (d : v2_decoder_t) :
  exists rc d',
    run_steps P max_steps alloc read_pos d = Some (rc, d')
    /\ (rc = 0 \/ rc = 1 -> to_read d' <> 0).
Proof.
  unfold max_steps. cbn [run_steps].
  destruct (Z.eqb_spec (to_read d) 0) as [Hz|Hz]; cbn [negb].
  2:{ exists 0, d. split; [reflexivity | intros _; exact Hz]. }
  unfold call_next. destruct (next d).
  - unfold flags_ready.
    destruct (test_flag (Wire.peek (tmpbuf d) 0) large_flag);
      cbn [Z.eqb negb next_step to_read]; eexists _, _;
      (split; [reflexivity | cbn [next_step to_read]; lia]).
  - unfold one_byte_size_ready.
    pose proof (size_ready_result alloc
                  (Wire.byte_val (Wire.peek (tmpbuf d) 0)) read_pos d) as H.
    destruct (size_ready P alloc _ read_pos d) as [rc d1].
    cbn [fst snd] in H. destruct H as [-> | [-> Hn]]; cbn [Z.eqb negb].
    + eexists _, _. split; [reflexivity | lia].
    + destruct (Z.eqb_spec (to_read d1) 0) as [Hz1|Hz1]; cbn [negb].
      * rewrite Hn. cbn [message_ready Z.eqb negb].
        eexists _, _. split; [reflexivity|]. cbn [next_step to_read]. lia.
      * eexists _, _. split; [reflexivity | intros _; exact Hz1].
  - unfold eight_byte_size_ready.
    pose proof (size_ready_result alloc
                  (Wire.get_uint64 (tmpbuf d)) read_pos d) as H.
    destruct (size_ready P alloc _ read_pos d) as [rc d1].
    cbn [fst snd] in H. destruct H as [-> | [-> Hn]]; cbn [Z.eqb negb].
    + eexists _, _. split; [reflexivity | lia].
    + destruct (Z.eqb_spec (to_read d1) 0) as [Hz1|Hz1]; cbn [negb].
      * rewrite Hn. cbn [message_ready Z.eqb negb].
        eexists _, _. split; [reflexivity|]. cbn [next_step to_read]. lia.
      * eexists _, _. split; [reflexivity | intros _; exact Hz1].
  - cbn [message_ready Z.eqb negb]. eexists _, _.
    split; [reflexivity|]. cbn [next_step to_read]. lia.
Qed.

Lemma eat_alike (r1 r2 : position_t) (d1 d2 : v2_decoder_t) (b : byte) :
  alike d1 d2 ->
  exists rc d1' d2',
    eat P true r1 d1 b = Some (rc, d1')
    /\ eat P true r2 d2 b = Some (rc, d2')
    /\ alike d1' d2'
    /\ (rc = 0 \/ rc = 1 -> to_read d1' <> 0).
Proof.
  intros H. unfold eat.
  pose proof (run_steps_alike max_steps r1 r2 _ _ (store_alike b _ _ H))
    as Ha.
  destruct (run_steps_total true r1 (store b d1)) as [rc [d1' [E1 Hto]]].
  rewrite E1 in Ha |- *.
  destruct (run_steps P max_steps true r2 (store b d2)) as [[rc2 d2']|];
    [|contradiction].
  destruct Ha as [<- Ha]. exists rc, d1', d2'. auto.
Qed.

Lemma view_alike (d1 d2 : v2_decoder_t) :
  alike d1 d2 ->
  Msg.view (in_progress d1) = Msg.view (in_progress d2).
Proof.
  intros H. alike_inv H. unfold Msg.view, Msg.size. congruence.
Qed.

Lemma yield_alike (d1 d2 : v2_decoder_t) :
  alike d1 d2 ->
  alike (set_in_progress Msg.empty_msg d1)
        (set_in_progress Msg.empty_msg d2).
Proof.
  intros H. alike_inv H. unfold alike, shape.
  cbn [set_in_progress next read_buf read_off to_read tmpbuf msg_flags
       in_progress maxmsgsize]. congruence.
Qed.

(** One call of the consumer loop against the run byte by byte. *)
Lemma decode_bytes_absorb (data : list byte) :
  forall (e : call_env) (d dr : v2_decoder_t) (used : nat)
         (acc : list (Z * Z * list byte)),
    alloc_ok e = true ->
    to_read d <> 0 ->
    alike d dr ->
    exists rc n d',
      decode_bytes P e d data used = Some (rc, (used + n)%nat, d')
      /\ (n <= length data)%nat
      /\ ((rc = 0 /\ to_read d' <> 0
           /\ exists dr',
               absorb P dr data acc = Some (0, dr', acc) /\ alike d' dr')
          \/ (rc = 1 /\ (1 <= n)%nat /\ to_read d' <> 0
              /\ exists dr1,
                  alike d' dr1
                  /\ absorb P dr data acc
                     = absorb P (set_in_progress Msg.empty_msg dr1)
                         (skipn n data)
                         (acc ++ [Msg.view (in_progress dr1)]))
          \/ (rc <> 0 /\ rc <> 1
              /\ exists dr',
                  absorb P dr data acc = Some (rc, dr', acc)
                  /\ alike d' dr')).
Proof.
  induction data as [|b rest IH]; intros e d dr used acc He Hto Hal.
  - exists 0, 0%nat, d. cbn [decode_bytes absorb length].
    rewrite Nat.add_0_r. split; [reflexivity|]. split; [lia|].
    left. split; [reflexivity|]. split; [exact Hto|].
    exists dr. split; [reflexivity | exact Hal].
  - cbn [decode_bytes absorb]. rewrite He.
    destruct (eat_alike (advance (input e) (S used)) outside d dr b Hal)
      as [rc [d1 [dr1 [E1 [E2 [Hal1 Hto1]]]]]].
    unfold eat in E1. rewrite E1, E2.
    destruct (Z.eqb_spec rc 0) as [->|Hrc0]; cbn [negb].
    + destruct (IH e d1 dr1 (S used) acc He (Hto1 (or_introl eq_refl)) Hal1)
        as [rc [n [d' [Ed [Hn Hcases]]]]].
      exists rc, (S n), d'.
      replace (used + S n)%nat with (S used + n)%nat by lia.
      split; [exact Ed|]. split; [cbn [length]; lia|].
      destruct Hcases as [H | [[Hr [H1 [Ht [dr2 [Ha Hab]]]]] | H]].
      * left. exact H.
      * right; left. split; [exact Hr|]. split; [lia|].
        split; [exact Ht|]. exists dr2. split; [exact Ha|].
        cbn [skipn]. exact Hab.
      * right; right. exact H.
    + exists rc, 1%nat, d1.
      replace (used + 1)%nat with (S used) by lia.
      split; [reflexivity|]. split; [cbn [length]; lia|].
      destruct (Z.eqb_spec rc 1) as [->|Hrc1].
      * right; left. split; [reflexivity|]. split; [lia|].
        split; [apply Hto1; auto|]. exists dr1. split; [exact Hal1|].
        reflexivity.
      * right; right. split; [exact Hrc0|]. split; [exact Hrc1|].
        exists dr1. split; [reflexivity | exact Hal1].
Qed.

Lemma pump_absorb (fuel : nat) :
  forall (data : list byte) (envs : nat -> call_env) (k : nat)
         (d dr : v2_decoder_t) (acc : list Msg.msg_t),
    (forall i, alloc_ok (envs i) = true) ->
    to_read d <> 0 ->
    alike d dr ->
    (length data < fuel)%nat ->
    exists rc d' acc' k' dr',
      pump P fuel envs k d data acc = Some (rc, d', acc', k')
      /\ absorb P dr data (map Msg.view acc)
         = Some (rc, dr', map Msg.view acc')
      /\ alike d' dr'
      /\ (rc = 0 -> to_read d' <> 0).
Proof.
  induction fuel as [|fuel IH]; intros data envs k d dr acc He Hto Hal Hlen;
    [lia|].
  destruct data as [|b rest].
  { exists 0, d, acc, k, dr. cbn [pump absorb]. auto. }
  set (data := b :: rest) in *.
  assert (Hdec : decode P (envs k) d data
                 = decode_bytes P (envs k) d data 0).
  { unfold decode, data, max_steps. cbn [run_steps].
    destruct (Z.eqb_spec (to_read d) 0); [contradiction|]. reflexivity. }
  destruct (decode_bytes_absorb data (envs k) d dr 0%nat
              (map Msg.view acc) (He k) Hto Hal)
    as [rc [n [d' [Ed [Hn Hcases]]]]].
  cbn [Nat.add] in Ed.
  assert (Hp : pump P (S fuel) envs k d data acc
               = if rc =? 0 then Some (0, d', acc, S k)
                 else if rc =? 1 then
                   pump P fuel envs (S k) (set_in_progress Msg.empty_msg d')
                     (skipn n data) (acc ++ [in_progress d'])
                 else Some (rc, d', acc, S k)).
  { unfold data at 1. cbn [pump]. fold data. rewrite Hdec, Ed.
    reflexivity. }
  rewrite Hp. clear Hp.
  destruct Hcases as [[-> [Ht [dr' [Ea Ha]]]]
                     | [[-> [H1 [Ht [dr1 [Ha Ea]]]]]
                       | [Hr0 [Hr1 [dr' [Ea Ha]]]]]].
  - cbn [Z.eqb]. exists 0, d', acc, (S k), dr'. auto.
  - cbn [Z.eqb].
    assert (Hlen' : (length (skipn n data) < fuel)%nat).
    { rewrite length_skipn. unfold data in *. cbn [length] in *. lia. }
    destruct (IH (skipn n data) envs (S k)
                (set_in_progress Msg.empty_msg d')
                (set_in_progress Msg.empty_msg dr1)
                (acc ++ [in_progress d']) He Ht (yield_alike _ _ Ha) Hlen')
      as [rc [d2 [acc2 [k2 [dr2 [Ep [Eab [Ha2 Ht2]]]]]]]].
    exists rc, d2, acc2, k2, dr2.
    split; [exact Ep|]. split; [|auto].
    rewrite Ea, <- Eab, map_app. cbn [map].
    now rewrite (view_alike _ _ Ha).
  - destruct (Z.eqb_spec rc 0); [contradiction|].
    destruct (Z.eqb_spec rc 1); [contradiction|].
    exists rc, d', acc, (S k), dr'.
    split; [reflexivity|]. split; [exact Ea|]. split; [exact Ha|].
    intros; contradiction.
Qed.

Lemma absorb_app (l1 l2 : list byte) :
  forall (d : v2_decoder_t) (acc : list (Z * Z * list byte)),
    absorb P d (l1 ++ l2) acc
    = match absorb P d l1 acc with
      | Some (rc, d1, acc1) =>
          if rc =? 0 then absorb P d1 l2 acc1 else Some (rc, d1, acc1)
      | None => None
      end.
Proof.
  induction l1 as [|b l1 IH]; intros d acc; cbn [app absorb].
  - reflexivity.
  - destruct (eat P true outside d b) as [[rc d1]|]; [|reflexivity].
    destruct (Z.eqb_spec rc 0) as [->|H0]; [apply IH|].
    destruct (Z.eqb_spec rc 1) as [->|H1]; [apply IH|].
    destruct (Z.eqb_spec rc 0); [contradiction | reflexivity].
Qed.

Lemma feed_absorb (chunks : list (list byte)) :
  forall (envs : nat -> call_env) (k : nat) (d dr : v2_decoder_t)
         (acc : list Msg.msg_t),
    (forall i, alloc_ok (envs i) = true) ->
    to_read d <> 0 ->
    alike d dr ->
    exists rc d' acc' k' dr',
      feed P envs k d chunks acc = Some (rc, d', acc', k')
      /\ absorb P dr (concat chunks) (map Msg.view acc)
         = Some (rc, dr', map Msg.view acc').
Proof.
  induction chunks as [|c chunks IH]; intros envs k d dr acc He Hto Hal.
  - exists 0, d, acc, k, dr. split; reflexivity.
  - cbn [feed concat]. rewrite absorb_app.
    destruct (pump_absorb (S (length c)) c envs k d dr acc He Hto Hal
                ltac:(lia))
      as [rc [d1 [acc1 [k1 [dr1 [Ep [Ea [Ha Ht]]]]]]]].
    rewrite Ep, Ea.
    destruct (Z.eqb_spec rc 0) as [->|Hrc].
    + apply (IH envs k1 d1 dr1 acc1 He (Ht eq_refl) Ha).
    + exists rc, d1, acc1, k1, dr1. split; reflexivity.
Qed.

(** What a fresh decoder delivers depends on the stream only: however
    the stream is cut into chunks and wherever the chunks lie in the
    receive buffer, the result and the messages (flags, size, payload) are
    those of the run byte by byte. *)
Lemma receive_absorb (envs : nat -> call_env) (maxmsgsize_ : Z)
    (zero_copy_ : bool) (chunks : list (list byte)) :
  (forall i, alloc_ok (envs i) = true) ->
  exists rc dr views,
    absorb P (create maxmsgsize_ zero_copy_) (concat chunks) []
    = Some (rc, dr, views)
    /\ receive P envs maxmsgsize_ zero_copy_ chunks = Some (rc, views).
Proof.
  intros He. unfold receive.
  destruct (feed_absorb chunks envs 0%nat (create maxmsgsize_ zero_copy_)
              (create maxmsgsize_ zero_copy_) [] He
              ltac:(cbn; lia) eq_refl)
    as [rc [d' [acc' [k' [dr' [Ef Ea]]]]]].
  rewrite Ef. exists rc, dr', (map Msg.view acc'). split; [exact Ea|].
  reflexivity.
Qed.

(** *** Frames through the decoder *)

Lemma to_read_store (b : byte) (d : v2_decoder_t) :
  to_read (store b d) = to_read d - 1.
Proof. unfold store. now destruct (read_buf d). Qed.

Lemma stores_snoc (d : v2_decoder_t) (bs : list byte) (b : byte) :
  stores d (bs ++ [b]) = store b (stores d bs).
Proof. unfold stores. now rewrite fold_left_app. Qed.

Lemma stores_tmpbuf (bs : list byte) :
  forall d : v2_decoder_t,
    read_buf d = in_tmpbuf ->
    stores d bs
    = {| next := next d; read_buf := in_tmpbuf;
         read_off := (read_off d + length bs)%nat;
         to_read := to_read d - Z.of_nat (length bs);
         refs := refs d;
         tmpbuf := Wire.memcpy (tmpbuf d) (read_off d) bs;
         msg_flags := msg_flags d; in_progress := in_progress d;
         zero_copy := zero_copy d; maxmsgsize := maxmsgsize d;
         errno := errno d |}.
Proof.
  induction bs as [|b bs IH]; intros d Hb.
  - destruct d; cbn in *; subst. f_equal; lia.
  - change (stores d (b :: bs)) with (stores (store b d) bs).
    rewrite IH by (unfold store; rewrite Hb; reflexivity).
    unfold store. rewrite Hb.
    cbn [next read_buf read_off to_read refs tmpbuf msg_flags in_progress
         zero_copy maxmsgsize errno length Wire.memcpy].
    f_equal; lia.
Qed.

Lemma stores_message (bs : list byte) :
  forall d : v2_decoder_t,
    read_buf d = in_message ->
    stores d bs
    = {| next := next d; read_buf := in_message;
         read_off := (read_off d + length bs)%nat;
         to_read := to_read d - Z.of_nat (length bs);
         refs := refs d; tmpbuf := tmpbuf d; msg_flags := msg_flags d;
         in_progress :=
           Msg.with_data
             (Wire.memcpy (Msg.data (in_progress d)) (read_off d) bs)
             (in_progress d);
         zero_copy := zero_copy d; maxmsgsize := maxmsgsize d;
         errno := errno d |}.
Proof.
  induction bs as [|b bs IH]; intros d Hb.
  - destruct d as [? ? ? ? ? ? ? [? ? ?] ? ? ?]; cbn in *; subst.
    unfold Msg.with_data; cbn. f_equal; lia.
  - change (stores d (b :: bs)) with (stores (store b d) bs).
    rewrite IH by (unfold store; rewrite Hb; reflexivity).
    unfold store. rewrite Hb.
    cbn [next read_buf read_off to_read refs tmpbuf msg_flags in_progress
         zero_copy maxmsgsize errno length Wire.memcpy Msg.with_data
         Msg.kind Msg.flags Msg.data].
    f_equal; lia.
Qed.

(** While more bytes are awaited than arrive, the bytes are stored and
    nothing else happens. *)
Lemma absorb_stores (bs : list byte) :
  forall (d : v2_decoder_t) (rest : list byte)
         (acc : list (Z * Z * list byte)),
    Z.of_nat (length bs) < to_read d ->
    absorb P d (bs ++ rest) acc = absorb P (stores d bs) rest acc.
Proof.
  induction bs as [|b bs IH]; intros d rest acc Hlen.
  - reflexivity.
  - cbn [app absorb]. unfold eat, max_steps. cbn [run_steps].
    cbn [length] in Hlen.
    destruct (Z.eqb_spec (to_read (store b d)) 0) as [Hz|Hz];
      [rewrite to_read_store in Hz; lia|].
    cbn [negb Z.eqb].
    change (stores d (b :: bs)) with (stores (store b d) bs).
    apply IH. rewrite to_read_store. lia.
Qed.

(** The bytes of one request: they are stored, and the transitions run
    after the last of them. *)
Lemma absorb_request (bs : list byte) (d : v2_decoder_t)
    (rest : list byte) (acc : list (Z * Z * list byte)) :
  bs <> [] ->
  to_read d = Z.of_nat (length bs) ->
  absorb P d (bs ++ rest) acc
  = match run_steps P max_steps true outside (stores d bs) with
    | None => None
    | Some (rc, d1) =>
        if rc =? 0 then absorb P d1 rest acc
        else if rc =? 1 then
          absorb P (set_in_progress Msg.empty_msg d1) rest
                 (acc ++ [Msg.view (in_progress d1)])
        else Some (rc, d1, acc)
    end.
Proof.
  intros Hne Hto.
  destruct (exists_last Hne) as [init [b ->]].
  rewrite <- app_assoc. cbn [app].
  rewrite absorb_stores by (rewrite length_app in Hto; cbn in Hto; lia).
  rewrite stores_snoc. reflexivity.
Qed.

Lemma run_steps_flags (d : v2_decoder_t) (fl : byte) :
  awaits_flags d ->
  run_steps P max_steps true outside (stores d [fl])
  = Some (0,
          next_step in_tmpbuf
            (if test_flag fl large_flag then 8 else 1)
            (if test_flag fl large_flag
             then fn_eight_byte_size_ready else fn_one_byte_size_ready)
            (set_msg_flags (message_flags P fl) (stores d [fl]))).
Proof.
  intros [Hn [Hb [Ho [Ht Hl]]]].
  rewrite (stores_tmpbuf [fl] d Hb). rewrite Hn, Ho, Ht.
  destruct (tmpbuf d) as [|t0 ts]; [discriminate|].
  unfold max_steps, call_next, flags_ready, message_flags.
  cbn [run_steps to_read length Z.of_nat Z.sub Z.eqb negb call_next next
       Wire.memcpy Wire.poke tmpbuf Wire.peek nth].
  unfold call_next, flags_ready.
  cbn [next tmpbuf Wire.peek nth].
  destruct (test_flag fl large_flag); cbn [negb Z.eqb next_step to_read];
    reflexivity.
Qed.

Lemma size_ready_accepts (n : Z) (read_pos : position_t) (d : v2_decoder_t) :
  0 <= n ->
  (maxmsgsize d < 0 \/ n <= maxmsgsize d) ->
  n = to_size_t P n ->
  length (tmpbuf d) = 8%nat ->
  exists d',
    size_ready P true n read_pos d = (0, d')
    /\ awaits_payload d' (msg_flags d) n
    /\ maxmsgsize d' = maxmsgsize d.
Proof.
  intros Hn Hmax Hfit Hl.
  rewrite (size_ready_within true n read_pos d Hmax Hfit).
  assert (Hlen : Z.of_nat (length (repeat x00 (Z.to_nat n))) = n)
    by (rewrite repeat_length; lia).
  unfold Msg.init_external, Msg.init_size, awaits_payload, Msg.size.
  destruct (negb (zero_copy d)
            || (buf_end read_pos <? ptr_add P (addr read_pos) n));
    [|destruct (n <? max_vsm_size P)];
    cbn [fst snd Z.eqb]; eexists; (split; [reflexivity|]);
    cbn [next_step set_in_progress set_errno inc_ref Msg.is_zcmsg
         Msg.kind Msg.set_flags Msg.flags Msg.data
         next read_buf read_off to_read tmpbuf msg_flags in_progress
         maxmsgsize];
    rewrite Hlen; repeat split; exact Hl.
Qed.

Lemma run_steps_size (d : v2_decoder_t) (hdr : list byte) (n : Z) :
  read_buf d = in_tmpbuf ->
  read_off d = 0%nat ->
  length (tmpbuf d) = 8%nat ->
  to_read d = Z.of_nat (length hdr) ->
  (next d = fn_one_byte_size_ready
   /\ hdr = [Wire.byte_of_Z n] /\ 0 <= n < 256)
  \/ (next d = fn_eight_byte_size_ready
      /\ hdr = Wire.put_uint64 n /\ 0 <= n < 2 ^ 64) ->
  (maxmsgsize d < 0 \/ n <= maxmsgsize d) ->
  n = to_size_t P n ->
  exists d',
    awaits_payload d' (msg_flags d) n
    /\ maxmsgsize d' = maxmsgsize d
    /\ run_steps P max_steps true outside (stores d hdr)
       = if n =? 0
         then Some (1, next_step in_tmpbuf 1 fn_flags_ready d')
         else Some (0, d').
Proof.
  intros Hb Ho Hl Ht Hhdr Hmax Hfit.
  set (s := stores d hdr).
  assert (Hs : next s = next d /\ to_read s = 0
               /\ msg_flags s = msg_flags d
               /\ maxmsgsize s = maxmsgsize d
               /\ length (tmpbuf s) = 8%nat
               /\ tmpbuf s = Wire.memcpy (tmpbuf d) 0 hdr).
  { subst s. rewrite (stores_tmpbuf hdr d Hb), Ho.
    cbn [next to_read msg_flags maxmsgsize tmpbuf].
    repeat split; try lia.
    destruct (tmpbuf d) as [|t0 [|t1 [|t2 [|t3 [|t4 [|t5 [|t6 [|t7 [|]]]]]]]]];
      try discriminate.
    destruct Hhdr as [[_ [-> _]] | [_ [-> _]]]; reflexivity. }
  destruct Hs as [Hsn [Hst [Hsf [Hsm [Hsl Hstmp]]]]].
  assert (Hcall : call_next P true outside s = size_ready P true n outside s).
  { unfold call_next. rewrite Hsn.
    destruct (tmpbuf d) as [|t0 [|t1 [|t2 [|t3 [|t4 [|t5 [|t6 [|t7 [|]]]]]]]]];
      try discriminate.
    destruct Hhdr as [[-> [-> Hn]] | [-> [-> Hn]]].
    - unfold one_byte_size_ready. rewrite Hstmp.
      cbn [Wire.memcpy Wire.poke Wire.peek nth].
      now rewrite WireFacts.byte_of_Z_val.
    - unfold eight_byte_size_ready. rewrite Hstmp.
      unfold Wire.put_uint64.
      cbn [map Wire.memcpy Wire.poke].
      rewrite WireFacts.get_uint64_be_value.
      now rewrite <- (WireFacts.be_value_put_uint64 n Hn) at 9. }
  assert (Hn0 : 0 <= n) by (destruct Hhdr as [[_ [_ ?]] | [_ [_ ?]]]; lia).
  destruct (size_ready_accepts n outside s Hn0 ltac:(rewrite Hsm; exact Hmax)
              Hfit Hsl) as [d' [Esz [Hap Hmx]]].
  exists d'. rewrite <- Hsf. split; [exact Hap|].
  split; [congruence|].
  unfold max_steps. cbn [run_steps]. rewrite Hst. cbn [Z.eqb negb].
  rewrite Hcall, Esz. cbn [Z.eqb negb].
  destruct Hap as [Hdn [_ [_ [Hdt _]]]]. rewrite Hdt.
  destruct (Z.eqb_spec n 0); cbn [negb]; [|reflexivity].
  unfold call_next. rewrite Hdn. reflexivity.
Qed.

Lemma memcpy_whole (bs : list byte) :
  Wire.memcpy (repeat x00 (length bs)) 0 bs = bs.
Proof.
  pose proof (WireFacts.memcpy_app bs [] (repeat x00 (length bs)) []
                (repeat_length _ _)) as H.
  cbn [app length] in H. rewrite !app_nil_r in H. exact H.
Qed.

Lemma run_steps_payload (d : v2_decoder_t) (mf : Z) (bs : list byte) :
  awaits_payload d mf (Z.of_nat (length bs)) ->
  run_steps P max_steps true outside (stores d bs)
  = Some (1, next_step in_tmpbuf 1 fn_flags_ready (stores d bs))
  /\ Msg.view (in_progress (stores d bs))
     = (mf, Z.of_nat (length bs), bs)
  /\ length (tmpbuf (stores d bs)) = 8%nat
  /\ maxmsgsize (stores d bs) = maxmsgsize d.
Proof.
  intros [Hn [Hb [Ho [Ht [Hf [Hd Hl]]]]]].
  rewrite (stores_message bs d Hb), Hn, Ho, Ht, Hd, Nat2Z.id.
  rewrite memcpy_whole.
  unfold max_steps, Msg.view, Msg.size.
  cbn [run_steps to_read next tmpbuf maxmsgsize in_progress Msg.with_data
       Msg.flags Msg.data].
  rewrite Z.sub_diag. cbn [Z.eqb negb]. unfold call_next.
  cbn [next message_ready Z.eqb negb]. rewrite Hf. repeat split.
  exact Hl.
Qed.

Lemma awaits_flags_next (d : v2_decoder_t) :
  length (tmpbuf d) = 8%nat ->
  awaits_flags
    (set_in_progress Msg.empty_msg (next_step in_tmpbuf 1 fn_flags_ready d)).
Proof. intros H. repeat split. exact H. Qed.

(** One well-formed frame that the decoder admits: the run byte by byte
    delivers its message and awaits the next flags byte. *)
Lemma absorb_frame (f : frame_t) (d : v2_decoder_t) (rest : list byte)
    (acc : list (Z * Z * list byte)) :
  awaits_flags d ->
  well_formed f ->
  admits P d f ->
  exists d',
    absorb P d (encode_frame f ++ rest) acc
    = absorb P d' rest (acc ++ [message_of P f])
    /\ awaits_flags d'
    /\ maxmsgsize d' = maxmsgsize d.
Proof.
  intros Hd Hwf [Hmax Hfit].
  pose proof Hd as [Hn [Hb [Ho [Ht Hl]]]].
  unfold encode_frame, well_formed, message_of in *.
  set (fl := wire_flags f) in *. set (n := payload_size f) in *.
  assert (Hn0 : 0 <= n) by (unfold n, payload_size; lia).
  change (fl :: ?x ++ ?y) with ([fl] ++ (x ++ y)).
  rewrite <- !app_assoc.
  rewrite (absorb_request [fl] d) by (auto; discriminate).
  rewrite (run_steps_flags d fl Hd). cbn [Z.eqb].
  set (d1 := next_step _ _ _ _).
  set (hdr := if test_flag fl large_flag
              then Wire.put_uint64 n else [Wire.byte_of_Z n]) in *.
  assert (Hl1 : length (tmpbuf d1) = 8%nat).
  { subst d1. rewrite (stores_tmpbuf [fl] d Hb), Ho.
    cbn [next_step set_msg_flags tmpbuf].
    destruct (tmpbuf d); [discriminate|]. exact Hl. }
  assert (Hm1 : maxmsgsize d1 = maxmsgsize d).
  { subst d1. now rewrite (stores_tmpbuf [fl] d Hb). }
  assert (Hhdr : hdr <> [] /\ to_read d1 = Z.of_nat (length hdr)
          /\ ((next d1 = fn_one_byte_size_ready
               /\ hdr = [Wire.byte_of_Z n] /\ 0 <= n < 256)
              \/ (next d1 = fn_eight_byte_size_ready
                  /\ hdr = Wire.put_uint64 n /\ 0 <= n < 2 ^ 64))).
  { subst d1 hdr. cbn [next_step next to_read].
    destruct (test_flag fl large_flag).
    - split; [discriminate|]. split; [reflexivity|]. right. auto.
    - split; [discriminate|]. split; [reflexivity|]. left. auto. }
  destruct Hhdr as [Hne [Hto1 Hkind]].
  rewrite (absorb_request hdr d1) by assumption.
  destruct (run_steps_size d1 hdr n eq_refl eq_refl Hl1 Hto1 Hkind
              ltac:(rewrite Hm1; exact Hmax) Hfit)
    as [d2 [Hap [Hm2 Erun]]].
  rewrite Erun.
  assert (Hmf : msg_flags d1 = message_flags P fl) by reflexivity.
  rewrite Hmf in Hap.
  destruct (Z.eqb_spec n 0) as [Hz|Hz].
  - cbn [Z.eqb].
    assert (Hp : payload f = []).
    { destruct (payload f) eqn:E; [reflexivity|].
      unfold n, payload_size in Hz. rewrite E in Hz. cbn in Hz. lia. }
    rewrite Hp. cbn [app].
    destruct Hap as [_ [_ [_ [_ [Hf2 [Hd2 Hl2]]]]]].
    eexists. split; [|split; [apply (awaits_flags_next d2 Hl2)|]].
    + unfold Msg.view, Msg.size.
      cbn [next_step in_progress]. rewrite Hf2, Hd2, Hz. reflexivity.
    + cbn [set_in_progress next_step maxmsgsize]. congruence.
  - cbn [Z.eqb].
    assert (Hpne : payload f <> []).
    { intros E. unfold n, payload_size in Hz. rewrite E in Hz.
      now apply Hz. }
    pose proof Hap as [_ [_ [_ [Ht2 _]]]].
    rewrite (absorb_request (payload f) d2) by assumption.
    destruct (run_steps_payload d2 (message_flags P fl) (payload f) Hap)
      as [Er [Ev [Hl3 Hm3]]].
    rewrite Er. cbn [Z.eqb].
    eexists. split; [|split; [apply (awaits_flags_next _ Hl3)|]].
    + cbn [next_step in_progress]. rewrite Ev. reflexivity.
    + cbn [set_in_progress next_step maxmsgsize]. congruence.
Qed.

(** A stream of well-formed frames that the decoder admits: the run byte
    by byte delivers the messages of the frames, in order, and ends
    awaiting a flags byte. *)
Lemma absorb_frames (fs : list frame_t) :
  forall (d : v2_decoder_t) (acc : list (Z * Z * list byte)),
    awaits_flags d ->
    Forall well_formed fs ->
    Forall (admits P d) fs ->
    exists d',
      absorb P d (encode_frames fs) acc
      = Some (0, d', acc ++ map (message_of P) fs)
      /\ awaits_flags d'.
Proof.
  induction fs as [|f fs IH]; intros d acc Hd Hwf Had.
  - exists d. cbn. rewrite app_nil_r. auto.
  - inversion Hwf as [|? ? Hwf1 Hwf2]; subst.
    inversion Had as [|? ? Had1 Had2]; subst.
    unfold encode_frames. cbn [map concat]. fold (encode_frames fs).
    destruct (absorb_frame f d (encode_frames fs) acc Hd Hwf1 Had1)
      as [d1 [E1 [Hd1 Hm1]]].
    rewrite E1.
    destruct (IH d1 (acc ++ [message_of P f]) Hd1 Hwf2) as [d' [E' Hd']].
    { eapply Forall_impl; [|exact Had2]. unfold admits.
      intros a. rewrite Hm1. auto. }
    exists d'. rewrite E', <- app_assoc. auto.
Qed.

Lemma awaits_flags_create (maxmsgsize_ : Z) (zero_copy_ : bool) :
  awaits_flags (create maxmsgsize_ zero_copy_).
Proof. repeat split. Qed.

(** A fresh decoder fed the frames [fs] in any chunks delivers their
    messages, provided it admits them and memory is available. *)
Lemma receive_frames (envs : nat -> call_env) (maxmsgsize_ : Z)
    (zero_copy_ : bool) (fs : list frame_t) (chunks : list (list byte)) :
  (forall i, alloc_ok (envs i) = true) ->
  concat chunks = encode_frames fs ->
  Forall well_formed fs ->
  Forall (admits P (create maxmsgsize_ zero_copy_)) fs ->
  receive P envs maxmsgsize_ zero_copy_ chunks
  = Some (0, map (message_of P) fs).
Proof.
  intros He Hc Hwf Had.
  destruct (receive_absorb envs maxmsgsize_ zero_copy_ chunks He)
    as [rc [dr [views [Ea Er]]]].
  destruct (absorb_frames fs (create maxmsgsize_ zero_copy_) []
              (awaits_flags_create _ _) Hwf Had) as [d' [Ef _]].
  rewrite Hc, Ef in Ea. injection Ea as <- _ <-. exact Er.
Qed.



End Steps.

(** *** Worked examples *)


(** Scenario 8 at the boundary: with [maxmsgsize = 5] a size of 5 is
    accepted and a size of 6 is refused. *)
Lemma size_ready_limit_at_5 :
  fst (size_ready lp64 true 5 at_start (create 5 false)) = 0
  /\ to_read (snd (size_ready lp64 true 5 at_start (create 5 false))) = 5
  /\ size_ready lp64 true 6 at_start (create 5 false)
     = (-1, set_errno EMSGSIZE (create 5 false)).
Proof.
  destruct (size_ready_limit lp64 true at_start (create 5 false))
    as [_ [_ [Hok Hno]]].
  destruct (Hok ltac:(cbn; lia) eq_refl) as [H1 [_ [H2 _]]].
  split; [exact H1|]. split; [exact H2|].
  exact (Hno ltac:(cbn; lia)).
Defined.


(** No memory for a message of 300 bytes that starts 28 bytes before the
    end of the receive buffer: the call fails with [ENOMEM] and
    [in_progress] is the empty message. *)
Lemma size_ready_out_of_memory :
  fst (size_ready lp64 false 300 near_end (create (-1) true)) = -1
  /\ errno (snd (size_ready lp64 false 300 near_end (create (-1) true)))
     = ENOMEM
  /\ in_progress
       (snd (size_ready lp64 false 300 near_end (create (-1) true)))
     = Msg.empty_msg.
Proof.
  destruct (size_ready_error_leaves_in_progress_clean lp64 false 300
              near_end (create (-1) true)) as [_ [H _]].
  apply H; [left; reflexivity | reflexivity | discriminate].
Defined.

End V2DecoderFacts.

(** ** The PLAIN client *)

Module PlainClientFacts.

Import PlainClient.

Section Mechanism.

Variable parse_metadata : list byte -> Z * option errno_t.
Variable make_command_with_basic_properties :
  Msg.msg_t -> list byte -> Msg.msg_t.

Lemma produce_hello_data (c : plain_client_t) (msg : Msg.msg_t) :
  (length (plain_username c) < 256)%nat ->
  (length (plain_password c) < 256)%nat ->
  produce_hello true c msg
  = (0, None,
     {| Msg.kind := Msg.owned; Msg.flags := 0;
        Msg.data := hello_frame (plain_username c) (plain_password c) |}).
Proof.
  intros Hu Hp. unfold produce_hello, hello_frame.
  set (u := plain_username c) in *. set (p := plain_password c) in *.
  replace (Z.of_nat (length u) <? 256) with true
    by (symmetry; apply Z.ltb_lt; lia).
  replace (Z.of_nat (length p) <? 256) with true
    by (symmetry; apply Z.ltb_lt; lia).
  cbn [negb Msg.init_size Z.eqb Msg.data Msg.with_data Msg.kind Msg.flags].
  replace (Z.to_nat (6 + 1 + Z.of_nat (length u) + 1 + Z.of_nat (length p)))
    with (6 + (1 + (length u + (1 + length p))))%nat by lia.
  do 2 f_equal.
  rewrite !repeat_app.
  set (bu := Wire.byte_of_Z (Z.of_nat (length u))).
  set (bp := Wire.byte_of_Z (Z.of_nat (length p))).
  set (zu := repeat x00 (length u)). set (zp := repeat x00 (length p)).
  assert (Hzu : length zu = length u) by apply repeat_length.
  assert (Hzp : length zp = length p) by apply repeat_length.
  change (repeat x00 1) with [x00].
  pose proof (WireFacts.memcpy_app HELLO [] (repeat x00 6)
                ([x00] ++ zu ++ [x00] ++ zp) eq_refl) as E1.
  cbn [app length] in E1. cbn [app]. rewrite E1. clear E1.
  change (0 + 6)%nat with (length HELLO).
  unfold Msg.with_data; cbn [Msg.kind Msg.flags Msg.data]. f_equal.
  rewrite (WireFacts.poke_app HELLO x00 bu).
  replace (HELLO ++ bu :: zu ++ x00 :: zp)
    with ((HELLO ++ [bu]) ++ zu ++ x00 :: zp)
    by (now rewrite <- app_assoc).
  replace (S (length HELLO)) with (length (HELLO ++ [bu]))
    by (rewrite length_app; simpl; lia).
  rewrite (WireFacts.memcpy_app u (HELLO ++ [bu]) zu (x00 :: zp) Hzu).
  replace ((HELLO ++ [bu]) ++ u ++ x00 :: zp)
    with (((HELLO ++ [bu]) ++ u) ++ x00 :: zp)
    by (now rewrite <- app_assoc).
  replace (length (HELLO ++ [bu]) + length u)%nat
    with (length ((HELLO ++ [bu]) ++ u))
    by (now rewrite (length_app _ u)).
  rewrite (WireFacts.poke_app _ x00 bp zp).
  replace ((((HELLO ++ [bu]) ++ u) ++ bp :: zp))
    with ((((HELLO ++ [bu]) ++ u) ++ [bp]) ++ zp ++ [])
    by (rewrite app_nil_r, <- (app_assoc _ [bp] zp); reflexivity).
  replace (S (length ((HELLO ++ [bu]) ++ u)))
    with (length (((HELLO ++ [bu]) ++ u) ++ [bp]))
    by (rewrite (length_app _ [bp]); simpl; lia).
  rewrite (WireFacts.memcpy_app p _ zp [] Hzp).
  rewrite app_nil_r, <- !app_assoc. reflexivity.
Qed.

Lemma set_errno_same (c : plain_client_t) : set_errno (errno c) c = c.
Proof. now destruct c. Qed.

(** C6: with a username of [u < 256] bytes and a password of [p < 256]
    bytes (and memory for the message), [produce_hello] returns 0 and
    leaves a message of exactly [6 + 1 + u + 1 + p] bytes: the name
    [\x05HELLO], the byte [u], the username, the byte [p], the password;
    in state [sending_hello] this is the command [next_handshake_command]
    hands out, moving to [waiting_for_welcome]. *)
Theorem produce_hello_frame (c : plain_client_t) (msg : Msg.msg_t) :
  (length (plain_username c) < 256)%nat ->
  (length (plain_password c) < 256)%nat ->
  let bu := Wire.byte_of_Z (Z.of_nat (length (plain_username c))) in
  let bp := Wire.byte_of_Z (Z.of_nat (length (plain_password c))) in
  let m :=
    {| Msg.kind := Msg.owned; Msg.flags := 0;
       Msg.data := [x05; x48; x45; x4c; x4c; x4f]
                   ++ [bu] ++ plain_username c
                   ++ [bp] ++ plain_password c |} in
  produce_hello true c msg = (0, None, m)
  /\ Msg.size m
     = 6 + 1 + Z.of_nat (length (plain_username c)) + 1
       + Z.of_nat (length (plain_password c))
  /\ Wire.byte_val bu = Z.of_nat (length (plain_username c))
  /\ Wire.byte_val bp = Z.of_nat (length (plain_password c))
  /\ (state c = sending_hello ->
      PlainClient.next_handshake_command
        make_command_with_basic_properties true c msg
      = (0, set_state waiting_for_welcome c, m)).
Proof.
  intros Hu Hp bu bp m.
  assert (E : produce_hello true c msg = (0, None, m))
    by apply (produce_hello_data c msg Hu Hp).
  split; [exact E|].
  split.
  { unfold Msg.size, m; cbn [Msg.data].
    rewrite !length_app. cbn [length]. lia. }
  split; [apply WireFacts.byte_of_Z_val; lia|].
  split; [apply WireFacts.byte_of_Z_val; lia|].
  intros Hs. unfold PlainClient.next_handshake_command. rewrite Hs, E.
  cbn [Z.eqb errno_after]. rewrite set_errno_same. reflexivity.
Qed.

Lemma produce_hello_rejects_long (alloc : bool) (c : plain_client_t)
    (msg : Msg.msg_t) :
  (256 <= length (plain_username c))%nat
  \/ (256 <= length (plain_password c))%nat ->
  produce_hello alloc c msg = (-1, None, msg).
Proof.
  intros H. unfold produce_hello.
  destruct (Z.ltb_spec (Z.of_nat (length (plain_username c))) 256);
    [|reflexivity].
  destruct (Z.ltb_spec (Z.of_nat (length (plain_password c))) 256);
    [|reflexivity].
  lia.
Qed.

(** C10: when [next_handshake_command] fails, the state is the one it was
    called in; a failed production (in [sending_hello] or
    [sending_initiate]) therefore leaves [status] at [handshaking], and a
    username or password of 256 bytes or more is such a failure. *)
Theorem next_handshake_command_failure_keeps_state
    (alloc : bool) (c : plain_client_t) (msg : Msg.msg_t)
    (rc : Z) (c' : plain_client_t) (m' : Msg.msg_t) :
  PlainClient.next_handshake_command
    make_command_with_basic_properties alloc c msg = (rc, c', m') ->
  rc <> 0 ->
  state c' = state c
  /\ (state c = sending_hello \/ state c = sending_initiate ->
      status c' = handshaking)
  /\ (state c = sending_hello ->
      (256 <= length (plain_username c))%nat
      \/ (256 <= length (plain_password c))%nat ->
      rc = -1 /\ m' = msg).
Proof.
  intros E Hrc. unfold PlainClient.next_handshake_command in E.
  destruct (state c) eqn:Hs.
  - destruct (produce_hello alloc c msg) as [[r e] m] eqn:Ep.
    destruct (Z.eqb_spec r 0) as [->|Hr].
    + injection E as <- <- <-. contradiction.
    + injection E as <- <- <-. cbn [set_errno state].
      split; [exact Hs|]. unfold status; cbn [set_errno state].
      rewrite Hs. split; [reflexivity|].
      intros _ Hlong.
      rewrite (produce_hello_rejects_long alloc c msg Hlong) in Ep.
      injection Ep as <- <- <-. split; reflexivity.
  - injection E as <- <- <-. cbn [set_errno state].
    split; [exact Hs|]. split; [intros [?|?]; discriminate | discriminate].
  - cbn [produce_initiate Z.eqb] in E. injection E as <- <- <-.
    contradiction.
  - injection E as <- <- <-. cbn [set_errno state].
    split; [exact Hs|]. split; [intros [?|?]; discriminate | discriminate].
  - injection E as <- <- <-. cbn [set_errno state].
    split; [exact Hs|]. split; [intros [?|?]; discriminate | discriminate].
  - injection E as <- <- <-. cbn [set_errno state].
    split; [exact Hs|]. split; [intros [?|?]; discriminate | discriminate].
Qed.

Lemma process_handshake_command_dispatch (c : plain_client_t)
    (msg : Msg.msg_t) :
  PlainClient.process_handshake_command parse_metadata c msg
  = (fst (dispatch parse_metadata c msg),
     snd (dispatch parse_metadata c msg),
     if fst (dispatch parse_metadata c msg) =? 0
     then Msg.empty_msg else msg).
Proof.
  unfold PlainClient.process_handshake_command.
  fold (dispatch parse_metadata c msg).
  destruct (dispatch parse_metadata c msg) as [rc c1]. cbn [fst snd].
  destruct (Z.eqb_spec rc 0) as [->|Hrc]; reflexivity.
Qed.

(** C9: a call of [process_handshake_command] that fails returns the
    message as it was passed in; the message is closed and initialised
    empty exactly when the call succeeds. *)
Theorem process_handshake_command_keeps_message_on_failure
    (c : plain_client_t) (msg : Msg.msg_t)
    (rc : Z) (c' : plain_client_t) (m' : Msg.msg_t) :
  PlainClient.process_handshake_command parse_metadata c msg
  = (rc, c', m') ->
  (rc <> 0 -> m' = msg) /\ (rc = 0 -> m' = Msg.empty_msg).
Proof.
  rewrite process_handshake_command_dispatch. intros E.
  injection E as <- <- <-.
  destruct (Z.eqb_spec (fst (dispatch parse_metadata c msg)) 0);
    split; intros;
    try reflexivity; contradiction.
Qed.

Lemma size_app_data (m : Msg.msg_t) (name body : list byte) :
  Msg.data m = name ++ body ->
  Msg.size m = Z.of_nat (length name) + Z.of_nat (length body).
Proof.
  intros E. unfold Msg.size. rewrite E, length_app. lia.
Qed.

Lemma dispatch_welcome (c : plain_client_t) (m : Msg.msg_t)
    (body : list byte) :
  Msg.data m = WELCOME ++ body ->
  dispatch parse_metadata c m = process_welcome (Msg.size m) c.
Proof.
  intros E. unfold dispatch.
  pose proof (size_app_data m WELCOME body E) as Hsz.
  cbn [WELCOME length] in Hsz.
  replace (8 <=? Msg.size m) with true by (symmetry; apply Z.leb_le; lia).
  rewrite E. reflexivity.
Qed.

Lemma dispatch_ready (c : plain_client_t) (m : Msg.msg_t)
    (body : list byte) :
  Msg.data m = READY ++ body ->
  dispatch parse_metadata c m
  = PlainClient.process_ready parse_metadata (Msg.data m) (Msg.size m) c.
Proof.
  intros E. unfold dispatch.
  pose proof (size_app_data m READY body E) as Hsz.
  cbn [READY length] in Hsz.
  replace (6 <=? Msg.size m) with true by (symmetry; apply Z.leb_le; lia).
  rewrite E.
  replace (Wire.memcmp0 (READY ++ body) WELCOME) with false
    by (destruct body as [|? [|? ?]]; reflexivity).
  rewrite andb_false_r. reflexivity.
Qed.

Lemma dispatch_error (c : plain_client_t) (m : Msg.msg_t)
    (body : list byte) :
  Msg.data m = ERROR ++ body ->
  dispatch parse_metadata c m
  = process_error (Msg.data m) (Msg.size m) c.
Proof.
  intros E. unfold dispatch.
  pose proof (size_app_data m ERROR body E) as Hsz.
  cbn [ERROR length] in Hsz.
  replace (6 <=? Msg.size m) with true by (symmetry; apply Z.leb_le; lia).
  rewrite E.
  replace (Wire.memcmp0 (ERROR ++ body) WELCOME) with false
    by (destruct body as [|? [|? ?]]; reflexivity).
  rewrite andb_false_r. reflexivity.
Qed.

(** C4: a message named WELCOME that arrives in [waiting_for_welcome] is
    accepted, with the move to [sending_initiate], exactly when it is 8
    bytes long; with any other length the call fails, reports the
    malformed WELCOME and leaves the state and the message alone. *)
Theorem process_welcome_exact_length
    (c : plain_client_t) (m : Msg.msg_t) (body : list byte) :
  state c = waiting_for_welcome ->
  Msg.data m = WELCOME ++ body ->
  (Msg.size m = 8 ->
   PlainClient.process_handshake_command parse_metadata c m
   = (0, set_state sending_initiate c, Msg.empty_msg))
  /\ (Msg.size m <> 8 ->
      PlainClient.process_handshake_command parse_metadata c m
      = (-1,
         set_errno EPROTO
           (report
              (event_handshake_failed_protocol
                 ZMTP_MALFORMED_COMMAND_WELCOME) c),
         m)
      /\ state (snd (fst (PlainClient.process_handshake_command
                            parse_metadata c m)))
         = waiting_for_welcome)
  /\ (fst (fst (PlainClient.process_handshake_command
                  parse_metadata c m)) = 0
      /\ state (snd (fst (PlainClient.process_handshake_command
                            parse_metadata c m))) = sending_initiate
      <-> Msg.size m = 8).
Proof.
  intros Hs E.
  rewrite process_handshake_command_dispatch, (dispatch_welcome c m body E).
  unfold process_welcome, protocol_error. rewrite Hs. cbn [state_eqb negb].
  destruct (Z.eqb_spec (Msg.size m) 8) as [H8|H8]; cbn [negb fst snd Z.eqb].
  - split; [reflexivity|]. split; [contradiction|].
    split; [intros _; exact H8 | intros _; split; reflexivity].
  - split; [contradiction|]. split.
    + intros _. split; [reflexivity|].
      cbn [set_errno report state]. exact Hs.
    + split; [intros [H _]; discriminate | contradiction].
Qed.

(** C5: an ERROR command that arrives in [waiting_for_welcome] or
    [waiting_for_ready] fails as malformed, state and message left alone,
    when it has fewer than 7 bytes or its reason length (the byte at
    offset 6) exceeds the bytes that follow it; otherwise the call
    succeeds, hands the reason (that many bytes from offset 7) to
    [handle_error_reason] and moves to [error_command_received]. *)
Theorem process_error_command
    (c : plain_client_t) (m : Msg.msg_t) (body : list byte) :
  state c = waiting_for_welcome \/ state c = waiting_for_ready ->
  Msg.data m = ERROR ++ body ->
  let data_size := Msg.size m in
  let reason_len := Wire.byte_val (Wire.peek (Msg.data m) 6) in
  (data_size < 7 \/ data_size - 7 < reason_len ->
   PlainClient.process_handshake_command parse_metadata c m
   = (-1,
      set_errno EPROTO
        (report
           (event_handshake_failed_protocol ZMTP_MALFORMED_COMMAND_ERROR)
           c),
      m)
   /\ state (snd (fst (PlainClient.process_handshake_command
                         parse_metadata c m))) = state c)
  /\ (7 <= data_size /\ reason_len <= data_size - 7 ->
      PlainClient.process_handshake_command parse_metadata c m
      = (0,
         set_state error_command_received
           (report
              (handle_error_reason
                 (firstn (Z.to_nat reason_len) (skipn 7 (Msg.data m))))
              c),
         Msg.empty_msg)).
Proof.
  intros Hs E data_size reason_len.
  rewrite process_handshake_command_dispatch, (dispatch_error c m body E).
  unfold process_error, protocol_error.
  fold data_size. fold reason_len.
  replace (negb (state_eqb (state c) waiting_for_welcome)
           && negb (state_eqb (state c) waiting_for_ready)) with false
    by (destruct Hs as [-> | ->]; reflexivity).
  destruct (Z.ltb_spec data_size 7) as [H7|H7].
  - cbn [fst snd Z.eqb]. split; [|lia].
    intros _. split; reflexivity.
  - destruct (Z.ltb_spec (data_size - 7) reason_len) as [Hr|Hr];
      cbn [fst snd Z.eqb].
    + split; [|lia]. intros _. split; reflexivity.
    + split; [lia|]. intros _. reflexivity.
Qed.

Lemma dispatch_cases (c : plain_client_t) (msg : Msg.msg_t) :
  let '(rc, c1) := dispatch parse_metadata c msg in
  (rc <> 0 /\ state c1 = state c)
  \/ (rc = 0
      /\ exists a,
          action_of c (call_process msg) = Some a
          /\ handshake_step (state c) a (state c1)).
Proof.
  unfold dispatch, action_of.
  destruct ((8 <=? Msg.size msg) && Wire.memcmp0 (Msg.data msg) WELCOME).
  { unfold process_welcome, protocol_error.
    destruct (state c) eqn:Hs; cbn [state_eqb negb];
      try (left; split; [lia | exact Hs]).
    destruct (Msg.size msg =? 8); cbn [negb].
    - right. split; [reflexivity|]. exists received_welcome.
      split; [reflexivity | constructor].
    - left. split; [lia | exact Hs]. }
  destruct ((6 <=? Msg.size msg) && Wire.memcmp0 (Msg.data msg) READY).
  { unfold process_ready, protocol_error.
    destruct (state c) eqn:Hs; cbn [state_eqb negb];
      try (left; split; [lia | exact Hs]).
    destruct (parse_metadata (skipn 6 (Msg.data msg))) as [rc err].
    destruct (Z.eqb_spec rc 0) as [E0|E0].
    - right. split; [exact E0|]. exists received_ready.
      split; [reflexivity | constructor].
    - left. split; [exact E0 | exact Hs]. }
  destruct ((6 <=? Msg.size msg) && Wire.memcmp0 (Msg.data msg) ERROR).
  { unfold process_error, protocol_error.
    destruct (state c) eqn:Hs; cbn [state_eqb negb andb];
      try (left; split; [lia | exact Hs]);
      (destruct (Msg.size msg <? 7);
       [left; split; [lia | exact Hs]|]);
      (destruct (Msg.size msg - 7
                 <? Wire.byte_val (Wire.peek (Msg.data msg) 6));
       [left; split; [lia | exact Hs]|]);
      right; (split; [reflexivity|]); exists received_error;
      (split; [reflexivity | constructor]). }
  left. split; [cbn; lia | reflexivity].
Qed.

(** Every call either fails and keeps the state, or succeeds and takes
    one transition of the handshake. *)
Lemma perform_cases (c : plain_client_t) (k : call_t) :
  let '(rc, c1) :=
    PlainClient.perform parse_metadata make_command_with_basic_properties
      c k in
  (rc <> 0 /\ state c1 = state c)
  \/ (rc = 0
      /\ exists a,
          action_of c k = Some a
          /\ handshake_step (state c) a (state c1)).
Proof.
  destruct k as [alloc|msg]; unfold PlainClient.perform.
  - unfold PlainClient.next_handshake_command, action_of.
    destruct (state c) eqn:Hs;
      try (left; split; [lia | exact Hs]).
    + destruct (produce_hello alloc c Msg.empty_msg) as [[r e] m].
      destruct (Z.eqb_spec r 0) as [->|Hr].
      * right. split; [reflexivity|]. exists produced_hello.
        split; [reflexivity | constructor].
      * left. split; [exact Hr | exact Hs].
    + cbn [produce_initiate Z.eqb]. right. split; [reflexivity|].
      exists produced_initiate. split; [reflexivity | constructor].
  - rewrite process_handshake_command_dispatch.
    pose proof (dispatch_cases c msg) as H.
    destruct (dispatch parse_metadata c msg) as [rc c1]. exact H.
Qed.

Lemma path_step (s : state_t) (a : action_t) (s' : state_t)
    (l : list (option action_t)) :
  handshake_step s a s' ->
  (Some (Some a :: l) = path_to_ready s <-> Some l = path_to_ready s').
Proof.
  intros H; destruct H; cbn [path_to_ready];
    split; intros E; try discriminate;
    try (injection E as ->; reflexivity).
Qed.

Lemma ready_iff_path (ks : list call_t) (c : plain_client_t) :
  state (PlainClient.run parse_metadata
           make_command_with_basic_properties c ks) = ready
  <-> Some (PlainClient.successes parse_metadata
              make_command_with_basic_properties c ks)
      = path_to_ready (state c).
Proof.
  revert c. induction ks as [|k ks IH]; intros c.
  - cbn [PlainClient.run PlainClient.successes].
    destruct (state c); cbn [path_to_ready]; split; intros E;
      try discriminate; reflexivity.
  - cbn [PlainClient.run PlainClient.successes].
    pose proof (perform_cases c k) as H.
    destruct (PlainClient.perform parse_metadata
                make_command_with_basic_properties c k) as [rc c1].
    cbn [snd]. rewrite IH.
    destruct H as [[Hrc Hs] | [-> [a [Ha Hstep]]]].
    + destruct (Z.eqb_spec rc 0); [contradiction|]. now rewrite Hs.
    + cbn [Z.eqb]. rewrite Ha. symmetry. apply path_step. exact Hstep.
Qed.

(** C2: from the initial state the client is in [ready] after a sequence
    of calls exactly when the successful calls of the sequence are, in
    order, the production of HELLO, the receipt of WELCOME, the production
    of INITIATE and the receipt of READY; each successful call takes one
    transition of the handshake, and in [ready] and in
    [error_command_received] every call fails and keeps the state. *)
Theorem ready_iff_hello_welcome_initiate_ready :
  (forall (username password : list byte) (ks : list call_t),
     state (PlainClient.run parse_metadata
              make_command_with_basic_properties
              (create username password) ks) = ready
     <-> PlainClient.successes parse_metadata
           make_command_with_basic_properties
           (create username password) ks
         = [Some produced_hello; Some received_welcome;
            Some produced_initiate; Some received_ready])
  /\ (forall (c : plain_client_t) (k : call_t),
        fst (PlainClient.perform parse_metadata
               make_command_with_basic_properties c k) = 0 ->
        exists a,
          action_of c k = Some a
          /\ handshake_step (state c) a
               (state (snd (PlainClient.perform parse_metadata
                              make_command_with_basic_properties c k))))
  /\ (forall (c : plain_client_t) (k : call_t),
        state c = ready \/ state c = error_command_received ->
        fst (PlainClient.perform parse_metadata
               make_command_with_basic_properties c k) <> 0
        /\ state (snd (PlainClient.perform parse_metadata
                         make_command_with_basic_properties c k))
           = state c).
Proof.
  split; [|split].
  - intros username password ks. rewrite ready_iff_path.
    cbn [create state path_to_ready]. split; intros E.
    + now injection E.
    + now rewrite E.
  - intros c k Hrc. pose proof (perform_cases c k) as H.
    destruct (PlainClient.perform parse_metadata
                make_command_with_basic_properties c k) as [rc c1].
    cbn [fst snd] in *. destruct H as [[Hn _] | [_ H]];
      [contradiction | exact H].
  - intros c k Hs. pose proof (perform_cases c k) as H.
    destruct (PlainClient.perform parse_metadata
                make_command_with_basic_properties c k) as [rc c1].
    cbn [fst snd]. destruct H as [H | [_ [a [_ Hstep]]]]; [exact H|].
    exfalso. destruct Hs as [Hs | Hs]; rewrite Hs in Hstep;
      inversion Hstep.
Qed.

End Mechanism.

(** Scenario 5: user [u], password [p] give the HELLO frame
    [05 48 45 4c 4c 4f 01 75 01 70]. *)
Lemma produce_hello_frame_u_p :
  (length ["u"%byte] < 256)%nat
  /\ (length ["p"%byte] < 256)%nat
  /\ produce_hello true (create ["u"%byte] ["p"%byte]) Msg.empty_msg
     = (0, None,
        {| Msg.kind := Msg.owned; Msg.flags := 0;
           Msg.data :=
             [x05; x48; x45; x4c; x4c; x4f; x01; x75; x01; x70] |}).
Proof.
  split; [simpl; lia|]. split; [simpl; lia|].
  apply (produce_hello_frame (fun m _ => m)
           (create ["u"%byte] ["p"%byte]) Msg.empty_msg);
    simpl; lia.
Defined.

(** A username of 256 bytes: the HELLO command is not produced and the
    client stays in [sending_hello], still handshaking. *)
Lemma next_handshake_command_long_username :
  PlainClient.next_handshake_command (fun m _ => m) true
    (create (repeat x00 256) []) Msg.empty_msg
  = (-1, create (repeat x00 256) [], Msg.empty_msg)
  /\ -1 <> 0
  /\ state (create (repeat x00 256) []) = sending_hello
  /\ status (create (repeat x00 256) []) = handshaking.
Proof.
  assert (E : PlainClient.next_handshake_command (fun m _ => m) true
                (create (repeat x00 256) []) Msg.empty_msg
              = (-1, create (repeat x00 256) [], Msg.empty_msg))
    by (vm_compute; reflexivity).
  assert (N : -1 <> 0) by lia.
  split; [exact E|]. split; [exact N|].
  destruct (next_handshake_command_failure_keeps_state
              (fun m _ => m) true (create (repeat x00 256) [])
              Msg.empty_msg (-1) (create (repeat x00 256) [])
              Msg.empty_msg E N) as [Hs [Hst _]].
  split; [reflexivity|]. apply Hst. left. reflexivity.
Defined.

(** Scenario 6: WELCOME in [waiting_for_welcome]. *)
Lemma process_welcome_scenario :
  state (set_state waiting_for_welcome (create [x75] [x70]))
  = waiting_for_welcome
  /\ Msg.data (Msg.with_data WELCOME Msg.empty_msg) = WELCOME ++ []
  /\ PlainClient.process_handshake_command (fun _ => (0, None))
       (set_state waiting_for_welcome (create [x75] [x70]))
       (Msg.with_data WELCOME Msg.empty_msg)
     = (0, set_state sending_initiate (create [x75] [x70]),
        Msg.empty_msg).
Proof.
  split; [reflexivity|]. split; [reflexivity|].
  destruct (process_welcome_exact_length (fun _ => (0, None))
              (set_state waiting_for_welcome (create [x75] [x70]))
              (Msg.with_data WELCOME Msg.empty_msg) []
              eq_refl eq_refl) as [H _].
  exact (H eq_refl).
Defined.

(** Scenario 7: ERROR with the reason [bad] in [waiting_for_welcome]. *)
Lemma process_error_scenario :
  state (set_state waiting_for_welcome (create [x75] [x70]))
  = waiting_for_welcome
  /\ Msg.data (Msg.with_data (ERROR ++ [x03; x62; x61; x64]) Msg.empty_msg)
     = ERROR ++ [x03; x62; x61; x64]
  /\ PlainClient.process_handshake_command (fun _ => (0, None))
       (set_state waiting_for_welcome (create [x75] [x70]))
       (Msg.with_data (ERROR ++ [x03; x62; x61; x64]) Msg.empty_msg)
     = (0,
        set_state error_command_received
          (report (handle_error_reason [x62; x61; x64])
             (set_state waiting_for_welcome (create [x75] [x70]))),
        Msg.empty_msg).
Proof.
  split; [reflexivity|]. split; [reflexivity|].
  destruct (process_error_command (fun _ => (0, None))
              (set_state waiting_for_welcome (create [x75] [x70]))
              (Msg.with_data (ERROR ++ [x03; x62; x61; x64]) Msg.empty_msg)
              [x03; x62; x61; x64] (or_introl eq_refl) eq_refl)
    as [_ H].
  apply H. split; vm_compute; discriminate.
Defined.

(** A command that is none of the three: the call fails and hands the
    message back as it was. *)
Lemma process_unknown_command_keeps_message :
  PlainClient.process_handshake_command (fun _ => (0, None)) (create [] [])
    (Msg.with_data [x01; x02] Msg.empty_msg)
  = (-1,
     set_errno EPROTO
       (report (event_handshake_failed_protocol ZMTP_UNEXPECTED_COMMAND)
          (create [] [])),
     Msg.with_data [x01; x02] Msg.empty_msg)
  /\ -1 <> 0
  /\ Msg.with_data [x01; x02] Msg.empty_msg
     = Msg.with_data [x01; x02] Msg.empty_msg.
Proof.
  assert (E : PlainClient.process_handshake_command (fun _ => (0, None))
                (create [] []) (Msg.with_data [x01; x02] Msg.empty_msg)
              = (-1,
                 set_errno EPROTO
                   (report
                      (event_handshake_failed_protocol
                         ZMTP_UNEXPECTED_COMMAND) (create [] [])),
                 Msg.with_data [x01; x02] Msg.empty_msg))
    by reflexivity.
  assert (N : -1 <> 0) by lia.
  split; [exact E|]. split; [exact N|].
  exact (proj1 (process_handshake_command_keeps_message_on_failure
                  (fun _ => (0, None)) _ _ _ _ _ E) N).
Defined.

(** The handshake with a peer that answers WELCOME and READY. *)
Lemma handshake_reaches_ready :
  PlainClient.successes (fun _ => (0, None)) (fun m _ => m)
    (create [x75] [x70]) cooperative_calls
  = [Some produced_hello; Some received_welcome;
     Some produced_initiate; Some received_ready]
  /\ state (PlainClient.run (fun _ => (0, None)) (fun m _ => m)
              (create [x75] [x70]) cooperative_calls) = ready.
Proof.
  set (ks := cooperative_calls).
  assert (E : PlainClient.successes (fun _ => (0, None)) (fun m _ => m)
                (create [x75] [x70]) ks
              = [Some produced_hello; Some received_welcome;
                 Some produced_initiate; Some received_ready])
    by reflexivity.
  split; [exact E|].
  destruct (ready_iff_hello_welcome_initiate_ready
              (fun _ => (0, None)) (fun m _ => m)) as [H _].
  apply (proj2 (H [x75] [x70] ks)). exact E.
Defined.

End PlainClientFacts.

(** ** More on the framing decoder *)

Module V2DecoderMore.

Import V2Decoder.

Section Steps.

Variable P : platform_t.

Lemma test_flag_low_bits (b1 b2 : byte) (mask : Z) :
  Z.land 7 mask = mask ->
  Z.land (Wire.byte_val b1) 7 = Z.land (Wire.byte_val b2) 7 ->
  test_flag b1 mask = test_flag b2 mask.
Proof.
  intros Hm H. unfold test_flag.
  rewrite <- Hm, !Z.land_assoc, H. reflexivity.
Qed.

(** X10: [flags_ready] looks at the bits MORE, LARGE and COMMAND of the
    flags byte and at nothing else: two decoders whose flags bytes agree
    on these three bits get the same result, the same next step with the
    same request and the same message flags, whatever the other five bits
    and whatever flags an earlier frame left behind. *)
Theorem flags_ready_ignores_reserved_bits (d1 d2 : v2_decoder_t) :
  Z.land (Wire.byte_val (Wire.peek (tmpbuf d1) 0)) 7
  = Z.land (Wire.byte_val (Wire.peek (tmpbuf d2) 0)) 7 ->
  fst (flags_ready P d1) = fst (flags_ready P d2)
  /\ next (snd (flags_ready P d1)) = next (snd (flags_ready P d2))
  /\ to_read (snd (flags_ready P d1)) = to_read (snd (flags_ready P d2))
  /\ read_buf (snd (flags_ready P d1)) = read_buf (snd (flags_ready P d2))
  /\ read_off (snd (flags_ready P d1)) = read_off (snd (flags_ready P d2))
  /\ msg_flags (snd (flags_ready P d1))
     = msg_flags (snd (flags_ready P d2)).
Proof.
  intros H. unfold flags_ready.
  rewrite (test_flag_low_bits _ _ more_flag eq_refl H).
  rewrite (test_flag_low_bits _ _ command_flag eq_refl H).
  rewrite (test_flag_low_bits _ _ large_flag eq_refl H).
  destruct (test_flag (Wire.peek (tmpbuf d2) 0) large_flag);
    repeat split.
Qed.


(** X12: a frame with the one-byte size header is never refused for its
    size by a decoder whose limit is off or at least 255, on a platform
    whose [size_t] has eight bits or more: with memory,
    [one_byte_size_ready] succeeds for every size byte. *)
Theorem one_byte_size_always_fits (read_pos : position_t)
    (d : v2_decoder_t) :
  maxmsgsize d < 0 \/ 255 <= maxmsgsize d ->
  8 <= size_t_bits P ->
  fst (one_byte_size_ready P true read_pos d) = 0
  /\ to_read (snd (one_byte_size_ready P true read_pos d))
     = Wire.byte_val (Wire.peek (tmpbuf d) 0).
Proof.
  intros Hmax Hbits. unfold one_byte_size_ready.
  set (n := Wire.byte_val (Wire.peek (tmpbuf d) 0)).
  pose proof (WireFacts.byte_val_range (Wire.peek (tmpbuf d) 0)) as Hr.
  fold n in Hr.
  assert (Hfit : n = to_size_t P n).
  { unfold to_size_t. symmetry. apply Z.mod_small.
    pose proof (Z.pow_le_mono_r 2 8 (size_t_bits P) ltac:(lia) Hbits).
    change (2 ^ 8) with 256 in *. lia. }
  rewrite (V2DecoderFacts.size_ready_within P true n read_pos d)
    by (auto; lia).
  assert (Hlen : Z.of_nat (length (repeat x00 (Z.to_nat n))) = n)
    by (rewrite repeat_length; lia).
  unfold Msg.init_external, Msg.init_size, Msg.size.
  destruct (negb (zero_copy d)
            || (buf_end read_pos <? ptr_add P (addr read_pos) n));
    [|destruct (n <? max_vsm_size P)];
    cbn [fst snd Z.eqb next_step to_read Msg.data]; rewrite Hlen;
    split; reflexivity.
Qed.

(** *** Zero-copy and what is delivered *)

Lemma absorb_alike (data : list byte) :
  forall (d1 d2 : v2_decoder_t) (acc : list (Z * Z * list byte)),
    alike d1 d2 ->
    exists rc d1' d2' views,
      absorb P d1 data acc = Some (rc, d1', views)
      /\ absorb P d2 data acc = Some (rc, d2', views)
      /\ alike d1' d2'.
Proof.
  induction data as [|b rest IH]; intros d1 d2 acc Hal.
  - exists 0, d1, d2, acc. cbn. auto.
  - cbn [absorb].
    destruct (V2DecoderFacts.eat_alike P outside outside d1 d2 b Hal)
      as [rc [d1' [d2' [E1 [E2 [Hal' _]]]]]].
    rewrite E1, E2.
    destruct (Z.eqb_spec rc 0) as [->|H0]; [apply IH; exact Hal'|].
    destruct (Z.eqb_spec rc 1) as [->|H1].
    + rewrite (V2DecoderFacts.view_alike _ _ Hal').
      apply IH. apply V2DecoderFacts.yield_alike. exact Hal'.
    + exists rc, d1', d2', acc. auto.
Qed.


(** *** What [decode] returns *)

Lemma size_ready_errno (alloc : bool) (msg_size : Z) (read_pos : position_t)
    (d : v2_decoder_t) :
  fst (size_ready P alloc msg_size read_pos d) = -1 ->
  (errno (snd (size_ready P alloc msg_size read_pos d)) = EMSGSIZE
   /\ too_large P d msg_size
   /\ snd (size_ready P alloc msg_size read_pos d) = set_errno EMSGSIZE d)
  \/ errno (snd (size_ready P alloc msg_size read_pos d)) = ENOMEM.
Proof.
  unfold too_large.
  destruct (Z.eq_dec msg_size (to_size_t P msg_size)) as [Hfit|Hfit];
    [destruct (Z.lt_ge_cases (maxmsgsize d) 0) as [Hneg|Hnn];
     [|destruct (Z.le_gt_cases msg_size (maxmsgsize d)) as [Hle|Hgt]]|];
    try (rewrite V2DecoderFacts.size_ready_too_large by (auto; lia);
         intros _; left; cbn [snd set_errno errno]; repeat split;
         auto; lia);
    rewrite (V2DecoderFacts.size_ready_within P alloc msg_size read_pos d)
      by (auto; lia);
    match goal with
    | |- context [fst (fst ?i) =? 0] => destruct (fst (fst i) =? 0)
    end; cbn [fst snd set_errno errno]; intros H;
    try discriminate; right; reflexivity.
Qed.

Lemma call_next_result (alloc : bool) (read_pos : position_t)
    (d : v2_decoder_t) :
  to_read d = 0 ->
  step_result P (fst (call_next P alloc read_pos d))
              (snd (call_next P alloc read_pos d)).
Proof.
  intros Hto. unfold call_next, step_result.
  destruct (next d) eqn:Hn.
  - left. unfold flags_ready.
    destruct (test_flag (Wire.peek (tmpbuf d) 0) large_flag); reflexivity.
  - unfold one_byte_size_ready.
    destruct (V2DecoderFacts.size_ready_result P alloc
                (Wire.byte_val (Wire.peek (tmpbuf d) 0)) read_pos d)
      as [H | [H _]]; [|left; exact H].
    right; right. split; [exact H|].
    destruct (size_ready_errno alloc _ read_pos d H) as [[He [Ht Hd]] | He];
      [left | right; exact He].
    rewrite Hd. unfold refused.
    cbn [set_errno to_read errno next tmpbuf maxmsgsize].
    split; [exact Hto|]. split; [reflexivity|]. left.
    split; [exact Hn | exact Ht].
  - unfold eight_byte_size_ready.
    destruct (V2DecoderFacts.size_ready_result P alloc
                (Wire.get_uint64 (tmpbuf d)) read_pos d)
      as [H | [H _]]; [|left; exact H].
    right; right. split; [exact H|].
    destruct (size_ready_errno alloc _ read_pos d H) as [[He [Ht Hd]] | He];
      [left | right; exact He].
    rewrite Hd. unfold refused.
    cbn [set_errno to_read errno next tmpbuf maxmsgsize].
    split; [exact Hto|]. split; [reflexivity|]. right.
    split; [exact Hn | exact Ht].
  - right; left. repeat split.
Qed.

Lemma run_steps_result (fuel : nat) (alloc : bool) (read_pos : position_t) :
  forall (d : v2_decoder_t) (rc : Z) (d' : v2_decoder_t),
    run_steps P fuel alloc read_pos d = Some (rc, d') ->
    step_result P rc d'.
Proof.
  induction fuel as [|fuel IH]; intros d rc d'; cbn [run_steps];
    destruct (Z.eqb_spec (to_read d) 0) as [Hz|Hz]; cbn [negb];
    intros E; try discriminate;
    try (injection E as <- <-; left; reflexivity).
  pose proof (call_next_result alloc read_pos d Hz) as H.
  destruct (call_next P alloc read_pos d) as [rc1 d1]. cbn [fst snd] in H.
  destruct (Z.eqb_spec rc1 0) as [->|H0]; cbn [negb] in E.
  - exact (IH d1 rc d' E).
  - injection E as <- <-. exact H.
Qed.

Lemma decode_bytes_result (data : list byte) :
  forall (e : call_env) (d : v2_decoder_t) (used : nat),
    exists rc n d',
      decode_bytes P e d data used = Some (rc, (used + n)%nat, d')
      /\ (n <= length data)%nat
      /\ step_result P rc d'
      /\ (rc = 0 -> n = length data)
      /\ (rc <> 0 -> (1 <= n)%nat).
Proof.
  induction data as [|b rest IH]; intros e d used.
  - exists 0, 0%nat, d. cbn [decode_bytes length].
    rewrite Nat.add_0_r. repeat split; try lia. left. reflexivity.
  - cbn [decode_bytes].
    destruct (V2DecoderFacts.run_steps_total P (alloc_ok e)
                (advance (input e) (S used)) (store b d))
      as [rc [d1 [E _]]].
    rewrite E. pose proof (run_steps_result _ _ _ _ _ _ E) as Hr.
    destruct (Z.eqb_spec rc 0) as [->|H0]; cbn [negb].
    + destruct (IH e d1 (S used)) as [rc [n [d' [Ed [Hn [Hs [Hz Hp]]]]]]].
      exists rc, (S n), d'.
      replace (used + S n)%nat with (S used + n)%nat by lia.
      cbn [length]. repeat split; auto; try lia;
        try (intros Hrc; specialize (Hz Hrc); lia).
    + exists rc, 1%nat, d1.
      replace (used + 1)%nat with (S used) by lia.
      cbn [length]. repeat split; auto; try lia; try contradiction.
Qed.

(** X14: [decode] always returns, with one of three results: 0 after it
    has consumed the whole input; 1 with a completed message, the decoder
    awaiting the one flags byte of the next frame; or -1 with [errno] set
    to [EMSGSIZE] or [ENOMEM].  It never consumes more than it was given,
    and a decoder that awaited a byte has consumed at least one when the
    result is not 0. *)
Theorem decode_result (e : call_env) (d : v2_decoder_t)
    (data : list byte) :
  exists rc used d',
    decode P e d data = Some (rc, used, d')
    /\ (used <= length data)%nat
    /\ ((rc = 0 /\ used = length data)
        \/ (rc = 1 /\ next d' = fn_flags_ready /\ to_read d' = 1)
        \/ (rc = -1 /\ (errno d' = EMSGSIZE \/ errno d' = ENOMEM)))
    /\ (to_read d <> 0 -> rc <> 0 -> (1 <= used)%nat).
Proof.
  assert (Herr : forall rc d', step_result P rc d' -> rc <> 0 ->
            (rc = 1 /\ next d' = fn_flags_ready /\ to_read d' = 1)
            \/ (rc = -1 /\ (errno d' = EMSGSIZE \/ errno d' = ENOMEM))).
  { intros rc d' [H | [H | [H [[_ [Hr _]] | Hr]]]] Hn; auto; contradiction. }
  unfold decode. destruct data as [|b rest].
  { exists 0, 0%nat, d. repeat split; auto. contradiction. }
  destruct (V2DecoderFacts.run_steps_total P (alloc_ok e) (input e) d)
    as [rc0 [d0 [E0 _]]].
  rewrite E0. pose proof (run_steps_result _ _ _ _ _ _ E0) as Hr0.
  destruct (Z.eqb_spec rc0 0) as [->|H0]; cbn [negb].
  - destruct (decode_bytes_result (b :: rest) e d0 0%nat)
      as [rc [n [d' [Ed [Hn [Hs [Hz Hp]]]]]]].
    cbn [Nat.add] in Ed. exists rc, n, d'.
    split; [exact Ed|]. split; [exact Hn|]. split.
    + destruct (Z.eq_dec rc 0) as [->|Hrc]; [left; auto|].
      right. apply Herr; assumption.
    + intros _ Hrc. apply Hp. exact Hrc.
  - exists rc0, 0%nat, d0. split; [reflexivity|]. split; [lia|]. split.
    + right. apply Herr; assumption.
    + intros Hto _. exfalso. revert E0. unfold max_steps.
      cbn [run_steps]. destruct (Z.eqb_spec (to_read d) 0);
        [contradiction|]. cbn [negb]. intros E0. injection E0 as E0 _.
      symmetry in E0. contradiction.
Qed.

(** *** Refused sizes *)

Lemma decode_step_result (e : call_env) (d : v2_decoder_t)
    (data : list byte) (rc : Z) (used : nat) (d' : v2_decoder_t) :
  decode P e d data = Some (rc, used, d') ->
  step_result P rc d'.
Proof.
  unfold decode. destruct data as [|b rest].
  { intros E. injection E as <- _ _. left. reflexivity. }
  destruct (run_steps P max_steps (alloc_ok e) (input e) d)
    as [[rc0 d0]|] eqn:E0; [|discriminate].
  pose proof (run_steps_result _ _ _ _ _ _ E0) as Hr0.
  destruct (Z.eqb_spec rc0 0) as [->|H0]; cbn [negb]; intros E.
  - destruct (decode_bytes_result (b :: rest) e d0 0%nat)
      as [rc1 [n [d1 [Ed [_ [Hs _]]]]]].
    rewrite Ed in E. injection E as <- _ <-. exact Hs.
  - injection E as <- _ <-. exact Hr0.
Qed.

Lemma set_errno_unchanged (d : v2_decoder_t) (e : errno_t) :
  errno d = e -> set_errno e d = d.
Proof. destruct d. cbn. intros <-. reflexivity. Qed.

Lemma refused_decode (e : call_env) (d : v2_decoder_t)
    (data : list byte) :
  refused P d -> data <> [] ->
  decode P e d data = Some (-1, 0%nat, d).
Proof.
  intros [Hto [He Hn]] Hne. destruct data as [|b rest]; [contradiction|].
  unfold decode, max_steps. cbn [run_steps]. rewrite Hto.
  cbn [Z.eqb negb]. unfold call_next.
  destruct Hn as [[Hn Ht] | [Hn Ht]]; rewrite Hn.
  - unfold one_byte_size_ready.
    rewrite V2DecoderFacts.size_ready_too_large by exact Ht.
    cbn [Z.eqb negb]. now rewrite set_errno_unchanged.
  - unfold eight_byte_size_ready.
    rewrite V2DecoderFacts.size_ready_too_large by exact Ht.
    cbn [Z.eqb negb]. now rewrite set_errno_unchanged.
Qed.

(** X15: a refusal for size is final: once [decode] has returned -1 with
    [errno = EMSGSIZE], every further call with input returns -1 again,
    consumes nothing and leaves the decoder as it is, whatever the input,
    the buffer and the memory; [size_ready] is simply asked again about
    the size header it holds. *)
Theorem decode_refusal_persists (e : call_env) (d : v2_decoder_t)
    (data : list byte) (used : nat) (d' : v2_decoder_t) :
  decode P e d data = Some (-1, used, d') ->
  errno d' = EMSGSIZE ->
  forall (e2 : call_env) (data2 : list byte),
    data2 <> [] ->
    decode P e2 d' data2 = Some (-1, 0%nat, d').
Proof.
  intros E He e2 data2 Hne.
  apply refused_decode; [|exact Hne].
  destruct (decode_step_result e d data _ _ _ E)
    as [H | [[H _] | [_ [H | H]]]]; try discriminate; [exact H|].
  rewrite He in H. discriminate.
Qed.

Lemma absorb_frames_then (fs : list frame_t) :
  forall (d : v2_decoder_t) (rest : list byte)
         (acc : list (Z * Z * list byte)),
    awaits_flags d ->
    Forall well_formed fs ->
    Forall (admits P d) fs ->
    exists d',
      absorb P d (encode_frames fs ++ rest) acc
      = absorb P d' rest (acc ++ map (message_of P) fs)
      /\ awaits_flags d'
      /\ maxmsgsize d' = maxmsgsize d.
Proof.
  induction fs as [|f fs IH]; intros d rest acc Hd Hwf Had.
  - exists d. cbn. rewrite app_nil_r. auto.
  - inversion Hwf as [|? ? Hwf1 Hwf2]; subst.
    inversion Had as [|? ? Had1 Had2]; subst.
    unfold encode_frames. cbn [map concat]. fold (encode_frames fs).
    rewrite <- app_assoc.
    destruct (V2DecoderFacts.absorb_frame P f d (encode_frames fs ++ rest)
                acc Hd Hwf1 Had1) as [d1 [E1 [Hd1 Hm1]]].
    rewrite E1.
    destruct (IH d1 rest (acc ++ [message_of P f]) Hd1 Hwf2)
      as [d' [E' [Hd' Hm']]].
    { eapply Forall_impl; [|exact Had2]. unfold admits.
      intros a. rewrite Hm1. auto. }
    exists d'. rewrite E', <- app_assoc. split; [reflexivity|].
    split; [exact Hd' | congruence].
Qed.

Lemma absorb_header_refused (f : frame_t) (d : v2_decoder_t)
    (rest : list byte) (acc : list (Z * Z * list byte)) :
  awaits_flags d ->
  well_formed f ->
  too_large P d (payload_size f) ->
  exists d',
    absorb P d (encode_header f ++ rest) acc = Some (-1, d', acc).
Proof.
  intros Hd Hwf Hbig.
  pose proof Hd as [Hn [Hb [Ho [Ht Hl]]]].
  unfold encode_header, well_formed in *.
  set (fl := wire_flags f) in *. set (n := payload_size f) in *.
  assert (Hn0 : 0 <= n) by (unfold n, payload_size; lia).
  change (fl :: ?x) with ([fl] ++ x).
  rewrite <- !app_assoc.
  rewrite (V2DecoderFacts.absorb_request P [fl] d) by (auto; discriminate).
  rewrite (V2DecoderFacts.run_steps_flags P d fl Hd). cbn [Z.eqb].
  set (d1 := next_step _ _ _ _).
  set (hdr := if test_flag fl large_flag
              then Wire.put_uint64 n else [Wire.byte_of_Z n]) in *.
  assert (Hd1 : read_buf d1 = in_tmpbuf /\ read_off d1 = 0%nat
                /\ maxmsgsize d1 = maxmsgsize d
                /\ exists t0 t1 t2 t3 t4 t5 t6 t7,
                    tmpbuf d1 = [t0; t1; t2; t3; t4; t5; t6; t7]).
  { subst d1. rewrite (V2DecoderFacts.stores_tmpbuf [fl] d Hb), Ho.
    cbn [next_step set_msg_flags tmpbuf read_buf read_off maxmsgsize].
    repeat split.
    destruct (tmpbuf d)
      as [|t0 [|t1 [|t2 [|t3 [|t4 [|t5 [|t6 [|t7 [|]]]]]]]]];
      try discriminate.
    cbn [Wire.memcpy Wire.poke]. repeat eexists. }
  destruct Hd1 as [Hb1 [Ho1 [Hm1 [t0 [t1 [t2 [t3 [t4 [t5 [t6 [t7 Ht1]]]]]]]]]]].
  assert (Hhdr : hdr <> [] /\ to_read d1 = Z.of_nat (length hdr)).
  { subst d1 hdr. cbn [next_step to_read].
    destruct (test_flag fl large_flag); split;
      try discriminate; reflexivity. }
  destruct Hhdr as [Hne Hto1].
  rewrite (V2DecoderFacts.absorb_request P hdr d1) by assumption.
  set (s := stores d1 hdr).
  assert (Hs : to_read s = 0 /\ maxmsgsize s = maxmsgsize d
               /\ call_next P true outside s = size_ready P true n outside s).
  { subst s. rewrite (V2DecoderFacts.stores_tmpbuf hdr d1 Hb1), Ho1, Ht1.
    cbn [to_read maxmsgsize]. split; [lia|]. split; [exact Hm1|].
    unfold call_next. cbn [next]. subst d1 hdr. cbn [next_step next].
    destruct (test_flag fl large_flag).
    - unfold eight_byte_size_ready, Wire.put_uint64.
      cbn [map Wire.memcpy Wire.poke tmpbuf].
      rewrite WireFacts.get_uint64_be_value.
      match goal with
      | |- context [Wire.be_value ?l] =>
          replace (Wire.be_value l) with n
            by (symmetry;
                exact (WireFacts.be_value_put_uint64 n (conj Hn0 Hwf)))
      end. reflexivity.
    - unfold one_byte_size_ready.
      cbn [Wire.memcpy Wire.poke tmpbuf Wire.peek nth].
      now rewrite WireFacts.byte_of_Z_val by lia. }
  destruct Hs as [Hst [Hsm Hcall]].
  unfold max_steps. cbn [run_steps]. rewrite Hst. cbn [Z.eqb negb].
  rewrite Hcall.
  rewrite V2DecoderFacts.size_ready_too_large
    by (unfold too_large in Hbig; rewrite Hsm; exact Hbig).
  cbn [Z.eqb negb]. eexists. reflexivity.
Qed.


(** *** One call of [decode], one frame *)

Lemma stores_alike (bs : list byte) :
  forall d1 d2 : v2_decoder_t,
    alike d1 d2 -> alike (stores d1 bs) (stores d2 bs).
Proof.
  induction bs as [|b bs IH]; intros d1 d2 H; [exact H|].
  change (alike (stores (store b d1) bs) (stores (store b d2) bs)).
  apply IH. apply V2DecoderFacts.store_alike. exact H.
Qed.

Lemma decode_bytes_stores (bs : list byte) :
  forall (e : call_env) (d : v2_decoder_t) (rest : list byte)
         (used : nat),
    Z.of_nat (length bs) < to_read d ->
    decode_bytes P e d (bs ++ rest) used
    = decode_bytes P e (stores d bs) rest (used + length bs)%nat.
Proof.
  induction bs as [|b bs IH]; intros e d rest used Hlen.
  - cbn. now rewrite Nat.add_0_r.
  - cbn [app decode_bytes]. unfold max_steps. cbn [run_steps].
    cbn [length] in Hlen.
    destruct (Z.eqb_spec (to_read (store b d)) 0) as [Hz|Hz];
      [rewrite V2DecoderFacts.to_read_store in Hz; lia|].
    cbn [negb Z.eqb].
    change (stores d (b :: bs)) with (stores (store b d) bs).
    rewrite IH by (rewrite V2DecoderFacts.to_read_store; lia).
    cbn [length]. f_equal. lia.
Qed.

Lemma decode_bytes_request (bs : list byte) (e : call_env)
    (d : v2_decoder_t) (rest : list byte) (used : nat) :
  bs <> [] ->
  to_read d = Z.of_nat (length bs) ->
  decode_bytes P e d (bs ++ rest) used
  = match run_steps P max_steps (alloc_ok e)
            (advance (input e) (used + length bs)) (stores d bs) with
    | None => None
    | Some (rc, d1) =>
        if negb (rc =? 0) then Some (rc, (used + length bs)%nat, d1)
        else decode_bytes P e d1 rest (used + length bs)%nat
    end.
Proof.
  intros Hne Hto.
  destruct (exists_last Hne) as [init [b ->]].
  rewrite length_app in *. cbn [length] in *.
  rewrite <- app_assoc. cbn [app].
  rewrite decode_bytes_stores by lia.
  cbn [decode_bytes]. rewrite V2DecoderFacts.stores_snoc.
  replace (S (used + length init)) with (used + (length init + 1))%nat
    by lia.
  reflexivity.
Qed.

(** A request against the same request in the run byte by byte. *)
Lemma run_steps_like (e : call_env) (r : position_t)
    (d dref : v2_decoder_t) (bs : list byte) (rc : Z)
    (d1ref : v2_decoder_t) :
  alloc_ok e = true ->
  alike d dref ->
  run_steps P max_steps true outside (stores dref bs) = Some (rc, d1ref) ->
  exists d1,
    run_steps P max_steps (alloc_ok e) r (stores d bs) = Some (rc, d1)
    /\ alike d1 d1ref.
Proof.
  intros He Hal E. rewrite He.
  pose proof (V2DecoderFacts.run_steps_alike P max_steps r outside _ _
                (stores_alike bs _ _ Hal)) as H.
  rewrite E in H.
  destruct (run_steps P max_steps true r (stores d bs)) as [[rc1 d1]|];
    [|contradiction].
  destruct H as [-> H]. exists d1. auto.
Qed.

Lemma alike_to_read (d1 d2 : v2_decoder_t) :
  alike d1 d2 -> to_read d1 = to_read d2 /\ next d1 = next d2.
Proof. intros H. unfold alike, shape in H. split; congruence. Qed.

Lemma decode_bytes_frame (f : frame_t) (e : call_env)
    (d dref : v2_decoder_t) (rest : list byte) (used : nat) :
  alloc_ok e = true ->
  alike d dref ->
  awaits_flags dref ->
  well_formed f ->
  admits P dref f ->
  exists d',
    decode_bytes P e d (encode_frame f ++ rest) used
    = Some (1, (used + length (encode_frame f))%nat, d')
    /\ Msg.view (in_progress d') = message_of P f
    /\ next d' = fn_flags_ready
    /\ to_read d' = 1.
Proof.
  intros He Hal Hd Hwf [Hmax Hfit].
  pose proof Hd as [Hn [Hb [Ho [Ht Hl]]]].
  unfold encode_frame, well_formed, message_of in *.
  set (fl := wire_flags f) in *. set (n := payload_size f) in *.
  assert (Hn0 : 0 <= n) by (unfold n, payload_size; lia).
  change (fl :: ?x ++ ?y) with ([fl] ++ (x ++ y)).
  rewrite <- !app_assoc.
  (* the flags byte *)
  rewrite (decode_bytes_request [fl] e d)
    by (try discriminate;
        rewrite (proj1 (alike_to_read _ _ Hal)); exact Ht).
  destruct (run_steps_like e (advance (input e) (used + length [fl]))
              d dref [fl] _ _ He Hal
              (V2DecoderFacts.run_steps_flags P dref fl Hd))
    as [d1 [E1 Hal1]].
  rewrite E1. cbn [Z.eqb negb]. clear E1.
  set (d1ref := next_step _ _ _ _) in *.
  set (hdr := if test_flag fl large_flag
              then Wire.put_uint64 n else [Wire.byte_of_Z n]) in *.
  assert (Hl1 : length (tmpbuf d1ref) = 8%nat).
  { subst d1ref. rewrite (V2DecoderFacts.stores_tmpbuf [fl] dref Hb), Ho.
    cbn [next_step set_msg_flags tmpbuf].
    destruct (tmpbuf dref); [discriminate|]. exact Hl. }
  assert (Hm1 : maxmsgsize d1ref = maxmsgsize dref).
  { subst d1ref. now rewrite (V2DecoderFacts.stores_tmpbuf [fl] dref Hb). }
  assert (Hhdr : hdr <> [] /\ to_read d1ref = Z.of_nat (length hdr)
          /\ ((next d1ref = fn_one_byte_size_ready
               /\ hdr = [Wire.byte_of_Z n] /\ 0 <= n < 256)
              \/ (next d1ref = fn_eight_byte_size_ready
                  /\ hdr = Wire.put_uint64 n /\ 0 <= n < 2 ^ 64))).
  { subst d1ref hdr. cbn [next_step next to_read].
    destruct (test_flag fl large_flag).
    - split; [discriminate|]. split; [reflexivity|]. right. auto.
    - split; [discriminate|]. split; [reflexivity|]. left. auto. }
  destruct Hhdr as [Hne [Hto1 Hkind]].
  (* the size header *)
  rewrite (decode_bytes_request hdr e d1)
    by (try assumption;
        rewrite (proj1 (alike_to_read _ _ Hal1)); exact Hto1).
  destruct (V2DecoderFacts.run_steps_size P d1ref hdr n eq_refl eq_refl
              Hl1 Hto1 Hkind ltac:(rewrite Hm1; exact Hmax) Hfit)
    as [d2ref [Hap [Hm2 Erun]]].
  assert (Hmf : msg_flags d1ref = message_flags P fl) by reflexivity.
  rewrite Hmf in Hap.
  destruct (Z.eqb_spec n 0) as [Hz|Hz].
  - destruct (run_steps_like e
                (advance (input e) (used + length [fl] + length hdr))
                d1 d1ref hdr _ _ He Hal1 Erun) as [d2 [E2 Hal2]].
    rewrite E2. cbn [Z.eqb negb].
    assert (Hp : payload f = []).
    { destruct (payload f) eqn:E; [reflexivity|].
      unfold n, payload_size in Hz. rewrite E in Hz. cbn in Hz. lia. }
    rewrite Hp, app_nil_r. cbn [app length].
    exists d2. split; [f_equal; f_equal; f_equal; lia|].
    destruct Hap as [_ [_ [_ [_ [Hf2 [Hd2 _]]]]]].
    rewrite (V2DecoderFacts.view_alike _ _ Hal2).
    destruct (alike_to_read _ _ Hal2) as [-> ->].
    unfold Msg.view, Msg.size. cbn [next_step in_progress next to_read].
    rewrite Hf2, Hd2, Hz. repeat split.
  - destruct (run_steps_like e
                (advance (input e) (used + length [fl] + length hdr))
                d1 d1ref hdr _ _ He Hal1 Erun) as [d2 [E2 Hal2]].
    rewrite E2. cbn [Z.eqb negb]. clear E2.
    assert (Hpne : payload f <> []).
    { intros E. unfold n, payload_size in Hz. rewrite E in Hz.
      now apply Hz. }
    pose proof Hap as [_ [_ [_ [Ht2 _]]]].
    (* the payload *)
    rewrite <- (app_nil_r (payload f ++ rest)), <- app_assoc.
    rewrite (decode_bytes_request (payload f) e d2)
      by (try assumption;
          rewrite (proj1 (alike_to_read _ _ Hal2)); exact Ht2).
    destruct (V2DecoderFacts.run_steps_payload P d2ref
                (message_flags P fl) (payload f) Hap)
      as [Er [Ev _]].
    destruct (run_steps_like e
                (advance (input e) (used + length [fl] + length hdr
                                    + length (payload f)))
                d2 d2ref (payload f) _ _ He Hal2 Er) as [d3 [E3 Hal3]].
    rewrite E3. cbn [Z.eqb negb].
    exists d3. split.
    { f_equal. f_equal. f_equal. rewrite !length_app. lia. }
    rewrite (V2DecoderFacts.view_alike _ _ Hal3).
    destruct (alike_to_read _ _ Hal3) as [-> ->].
    cbn [next_step in_progress next to_read]. rewrite Ev.
    repeat split.
Qed.

(** X17: one call of [decode] on input that starts with a complete frame
    (well formed, of a size the decoder takes, memory available) returns
    1 and has consumed exactly the bytes of that frame, the flags byte,
    the size header and the payload, and none of what follows; the
    message in progress has the flags, the size and the payload of the
    frame, wherever the input lies in the receive buffer. *)
Theorem decode_one_frame (f : frame_t) (e : call_env)
    (d : v2_decoder_t) (rest : list byte) :
  alloc_ok e = true ->
  awaits_flags d ->
  well_formed f ->
  admits P d f ->
  exists d',
    decode P e d (encode_frame f ++ rest)
    = Some (1, length (encode_frame f), d')
    /\ Msg.view (in_progress d') = message_of P f
    /\ next d' = fn_flags_ready
    /\ to_read d' = 1.
Proof.
  intros He Hd Hwf Had.
  destruct (decode_bytes_frame f e d d rest 0%nat He eq_refl Hd Hwf Had)
    as [d' [E H]].
  exists d'. split; [|exact H].
  unfold decode, encode_frame in *. cbn [app] in *.
  unfold max_steps. cbn [run_steps].
  destruct Hd as [_ [_ [_ [Ht _]]]]. rewrite Ht. cbn [Z.eqb negb].
  exact E.
Qed.

End Steps.

(** *** Worked examples *)

(** The flags bytes [01] and [f9] agree on their three low bits: both
    announce a short frame with MORE. *)
Lemma flags_ready_f9_like_01 :
  Z.land (Wire.byte_val
            (Wire.peek (tmpbuf (store xf9 (create (-1) false))) 0)) 7
  = Z.land (Wire.byte_val
              (Wire.peek (tmpbuf (store x01 (create (-1) false))) 0)) 7
  /\ next (snd (flags_ready lp64 (store xf9 (create (-1) false))))
     = next (snd (flags_ready lp64 (store x01 (create (-1) false))))
  /\ msg_flags (snd (flags_ready lp64 (store xf9 (create (-1) false))))
     = msg_flags (snd (flags_ready lp64 (store x01 (create (-1) false)))).
Proof.
  split; [reflexivity|].
  destruct (flags_ready_ignores_reserved_bits lp64
              (store xf9 (create (-1) false))
              (store x01 (create (-1) false)) eq_refl)
    as [_ [Hn [_ [_ [_ Hf]]]]].
  split; [exact Hn | exact Hf].
Defined.


(** The largest size byte with the limit off. *)
Lemma one_byte_size_255 :
  (maxmsgsize (store xff (create (-1) false)) < 0
   \/ 255 <= maxmsgsize (store xff (create (-1) false)))
  /\ 8 <= size_t_bits lp64
  /\ fst (one_byte_size_ready lp64 true at_start
            (store xff (create (-1) false)))
     = 0
  /\ to_read
       (snd (one_byte_size_ready lp64 true at_start
               (store xff (create (-1) false))))
     = 255.
Proof.
  assert (H0 : maxmsgsize (store xff (create (-1) false)) < 0
               \/ 255 <= maxmsgsize (store xff (create (-1) false)))
    by (left; reflexivity).
  assert (H1 : 8 <= size_t_bits lp64) by (cbn; lia).
  split; [exact H0|]. split; [exact H1|].
  exact (one_byte_size_always_fits lp64 at_start
           (store xff (create (-1) false)) H0 H1).
Defined.


(** Scenario 8: a limit of two bytes and a frame of three; the decoder
    refuses the frame and goes on refusing. *)
Lemma decode_refuses_3_again :
  decode lp64 (roomy 0) (create 2 true) [x00; x03; x41]
  = Some (-1, 2%nat, refused_at_3)
  /\ errno refused_at_3 = EMSGSIZE
  /\ decode lp64 (tight 0) refused_at_3 [x41; x42]
     = Some (-1, 0%nat, refused_at_3).
Proof.
  assert (E : decode lp64 (roomy 0) (create 2 true) [x00; x03; x41]
              = Some (-1, 2%nat, refused_at_3)) by reflexivity.
  assert (He : errno refused_at_3 = EMSGSIZE) by reflexivity.
  split; [exact E|]. split; [exact He|].
  apply (decode_refusal_persists lp64 (roomy 0) (create 2 true)
           [x00; x03; x41] 2%nat refused_at_3 E He (tight 0) [x41; x42]).
  discriminate.
Defined.


(** The frame [01 03 41 42 43] followed by the start of another: one
    call consumes five bytes. *)
Lemma decode_abc_consumes_5 :
  exists d',
    decode lp64 (roomy 0) (create (-1) true)
      ([x01; x03; x41; x42; x43] ++ [x00; x02])
    = Some (1, 5%nat, d')
    /\ Msg.view (in_progress d') = (1, 3, [x41; x42; x43])
    /\ next d' = fn_flags_ready
    /\ to_read d' = 1.
Proof.
  apply (decode_one_frame lp64
           {| wire_flags := x01; payload := [x41; x42; x43] |}
           (roomy 0) (create (-1) true) [x00; x02]).
  - reflexivity.
  - repeat split.
  - vm_compute; reflexivity.
  - split; [left; reflexivity | reflexivity].
Defined.

End V2DecoderMore.

(** ** More on the PLAIN client *)

Module PlainClientMore.

Import PlainClient.

Section Mechanism.

Variable parse_metadata : list byte -> Z * option errno_t.
Variable make_command_with_basic_properties :
  Msg.msg_t -> list byte -> Msg.msg_t.


Lemma dispatch_idle (c : plain_client_t) (msg : Msg.msg_t) :
  state c <> waiting_for_welcome ->
  state c <> waiting_for_ready ->
  dispatch parse_metadata c msg
  = protocol_error ZMTP_UNEXPECTED_COMMAND c.
Proof.
  intros Hw Hr. unfold dispatch, process_welcome, process_error.
  unfold PlainClient.process_ready.
  destruct (state c); try contradiction; cbn [state_eqb negb andb];
    repeat match goal with
           | |- context [if ?b then _ else _] => destruct b
           end; reflexivity.
Qed.

(** X2: while the client has a command to send, and after the handshake
    has ended, every inbound message, whatever its bytes, is refused as
    an unexpected command: result -1, [errno = EPROTO], one event, state
    and message unchanged. *)
Theorem process_handshake_command_when_not_waiting
    (c : plain_client_t) (msg : Msg.msg_t) :
  state c = sending_hello \/ state c = sending_initiate
  \/ state c = ready \/ state c = error_command_received ->
  PlainClient.process_handshake_command parse_metadata c msg
  = (-1,
     set_errno EPROTO
       (report (event_handshake_failed_protocol ZMTP_UNEXPECTED_COMMAND) c),
     msg).
Proof.
  intros Hs.
  rewrite PlainClientFacts.process_handshake_command_dispatch.
  rewrite dispatch_idle
    by (destruct Hs as [H | [H | [H | H]]]; rewrite H; discriminate).
  reflexivity.
Qed.

(** X3: the two answers of the server are tied to their place in the
    handshake: READY before WELCOME, and WELCOME once INITIATE is sent,
    are refused as unexpected commands whatever follows the name; the
    state check comes before any look at length or metadata. *)
Theorem process_handshake_command_out_of_turn
    (c : plain_client_t) (m : Msg.msg_t) (body : list byte) :
  (state c = waiting_for_welcome /\ Msg.data m = READY ++ body)
  \/ (state c = waiting_for_ready /\ Msg.data m = WELCOME ++ body) ->
  PlainClient.process_handshake_command parse_metadata c m
  = (-1,
     set_errno EPROTO
       (report (event_handshake_failed_protocol ZMTP_UNEXPECTED_COMMAND) c),
     m).
Proof.
  intros [[Hs E] | [Hs E]];
    rewrite PlainClientFacts.process_handshake_command_dispatch.
  - rewrite (PlainClientFacts.dispatch_ready parse_metadata c m body E).
    unfold PlainClient.process_ready. rewrite Hs. reflexivity.
  - rewrite (PlainClientFacts.dispatch_welcome parse_metadata c m body E).
    unfold process_welcome. rewrite Hs. reflexivity.
Qed.

(** X4: a message of fewer than six bytes, the empty message included,
    names no command: in every state it is refused as unexpected and
    none of its bytes decides anything. *)
Theorem process_handshake_command_short_message
    (c : plain_client_t) (msg : Msg.msg_t) :
  Msg.size msg < 6 ->
  PlainClient.process_handshake_command parse_metadata c msg
  = (-1,
     set_errno EPROTO
       (report (event_handshake_failed_protocol ZMTP_UNEXPECTED_COMMAND) c),
     msg).
Proof.
  intros Hlen.
  rewrite PlainClientFacts.process_handshake_command_dispatch.
  unfold dispatch.
  replace (8 <=? Msg.size msg) with false by (symmetry; apply Z.leb_gt; lia).
  replace (6 <=? Msg.size msg) with false by (symmetry; apply Z.leb_gt; lia).
  reflexivity.
Qed.

Lemma dispatch_reports (c : plain_client_t) (msg : Msg.msg_t) :
  let r := dispatch parse_metadata c msg in
  (fst r <> 0 /\
   exists e,
     reports (snd r) = reports c ++ [event_handshake_failed_protocol e])
  \/ (fst r = 0 /\ reports (snd r) = reports c)
  \/ (fst r = 0 /\ state (snd r) = error_command_received /\
      exists reason,
        reports (snd r) = reports c ++ [handle_error_reason reason]).
Proof.
  assert (Hpe : forall e,
    fst (protocol_error e c) <> 0 /\
    exists e',
      reports (snd (protocol_error e c))
      = reports c ++ [event_handshake_failed_protocol e']).
  { intros e. cbn. split; [lia|]. exists e. reflexivity. }
  unfold dispatch.
  destruct ((8 <=? Msg.size msg) && Wire.memcmp0 (Msg.data msg) WELCOME).
  { unfold process_welcome.
    destruct (negb (state_eqb (state c) waiting_for_welcome));
      [left; apply Hpe|].
    destruct (negb (Msg.size msg =? 8)); [left; apply Hpe|].
    right; left. split; reflexivity. }
  destruct ((6 <=? Msg.size msg) && Wire.memcmp0 (Msg.data msg) READY).
  { unfold PlainClient.process_ready.
    destruct (negb (state_eqb (state c) waiting_for_ready));
      [left; apply Hpe|].
    destruct (parse_metadata (skipn 6 (Msg.data msg))) as [rc err].
    destruct (Z.eqb_spec rc 0) as [E0|E0]; cbn [fst snd].
    - right; left. split; [exact E0 | reflexivity].
    - left. split; [exact E0|]. eexists. reflexivity. }
  destruct ((6 <=? Msg.size msg) && Wire.memcmp0 (Msg.data msg) ERROR).
  { unfold process_error.
    destruct (negb (state_eqb (state c) waiting_for_welcome)
              && negb (state_eqb (state c) waiting_for_ready));
      [left; apply Hpe|].
    destruct (Msg.size msg <? 7); [left; apply Hpe|].
    destruct (Msg.size msg - 7
              <? Wire.byte_val (Wire.peek (Msg.data msg) 6));
      [left; apply Hpe|].
    right; right. cbn [fst snd set_state report state reports].
    split; [reflexivity|]. split; [reflexivity|]. eexists. reflexivity. }
  left. apply Hpe.
Qed.

(** X5: every call of [process_handshake_command] tells the session at
    most one thing: a failed call reports exactly one protocol event, a
    successful one reports nothing, except the accepted ERROR command,
    which hands over its reason once and ends in
    [error_command_received]. *)
Theorem process_handshake_command_reports_once
    (c : plain_client_t) (msg : Msg.msg_t) :
  let r := PlainClient.process_handshake_command parse_metadata c msg in
  let rc := fst (fst r) in
  let c' := snd (fst r) in
  (rc <> 0 /\
   exists e, reports c' = reports c ++ [event_handshake_failed_protocol e])
  \/ (rc = 0 /\ reports c' = reports c)
  \/ (rc = 0 /\ state c' = error_command_received /\
      exists reason, reports c' = reports c ++ [handle_error_reason reason]).
Proof.
  rewrite PlainClientFacts.process_handshake_command_dispatch.
  cbn [fst snd]. apply dispatch_reports.
Qed.

(** X6: the client never sends two commands in a row: after a call of
    [next_handshake_command] that produced a command, the next such call
    fails with [errno = EAGAIN] and leaves state and message alone, until
    an answer of the server has been processed. *)
Theorem next_handshake_command_not_twice
    (alloc alloc' : bool) (c c' : plain_client_t)
    (msg m' msg' : Msg.msg_t) :
  PlainClient.next_handshake_command make_command_with_basic_properties
    alloc c msg = (0, c', m') ->
  PlainClient.next_handshake_command make_command_with_basic_properties
    alloc' c' msg' = (-1, set_errno EAGAIN c', msg').
Proof.
  unfold PlainClient.next_handshake_command at 1.
  destruct (state c) eqn:Hs; intros E; try discriminate.
  - destruct (produce_hello alloc c msg) as [[r e] m].
    destruct (Z.eqb_spec r 0) as [->|Hr].
    + injection E as <- <-. reflexivity.
    + injection E as -> _ _. contradiction.
  - cbn [produce_initiate Z.eqb] in E. injection E as <- <-. reflexivity.
Qed.

(** X7: a HELLO that could not be produced for lack of memory costs
    nothing: the call returns -1 with [errno = ENOMEM] in the state it was
    called in, and the same call with memory then produces the HELLO
    command and moves on. *)
Theorem next_handshake_command_retry_after_enomem
    (c : plain_client_t) (msg : Msg.msg_t) :
  state c = sending_hello ->
  (length (plain_username c) < 256)%nat ->
  (length (plain_password c) < 256)%nat ->
  PlainClient.next_handshake_command make_command_with_basic_properties
    false c msg = (-1, set_errno ENOMEM c, Msg.closed)
  /\ PlainClient.next_handshake_command make_command_with_basic_properties
       true (set_errno ENOMEM c) Msg.closed
     = (0, set_state waiting_for_welcome (set_errno ENOMEM c),
        {| Msg.kind := Msg.owned; Msg.flags := 0;
           Msg.data := hello_frame (plain_username c) (plain_password c) |}).
Proof.
  intros Hs Hu Hp. split.
  - unfold PlainClient.next_handshake_command, produce_hello. rewrite Hs.
    replace (Z.of_nat (length (plain_username c)) <? 256) with true
      by (symmetry; apply Z.ltb_lt; lia).
    replace (Z.of_nat (length (plain_password c)) <? 256) with true
      by (symmetry; apply Z.ltb_lt; lia).
    reflexivity.
  - unfold PlainClient.next_handshake_command.
    cbn [set_errno state]. rewrite Hs.
    rewrite (PlainClientFacts.produce_hello_data (set_errno ENOMEM c)
               Msg.closed Hu Hp).
    reflexivity.
Qed.

Lemma app_inv_same_length (A : Type) (l1 l2 r1 r2 : list A) :
  length l1 = length l2 -> l1 ++ r1 = l2 ++ r2 -> l1 = l2 /\ r1 = r2.
Proof.
  revert l2. induction l1 as [|a l1 IH]; intros [|b l2] Hl E;
    try discriminate.
  - split; [reflexivity | exact E].
  - cbn in Hl, E. injection Hl as Hl. injection E as -> E.
    destruct (IH l2 Hl E) as [-> ->]. split; reflexivity.
Qed.

(** X8: the HELLO command is unambiguous: two clients whose usernames and
    passwords are shorter than 256 bytes produce the same bytes only if
    they have the same username and the same password. *)
Theorem produce_hello_injective
    (c1 c2 : plain_client_t) (m1 m2 : Msg.msg_t) :
  (length (plain_username c1) < 256)%nat ->
  (length (plain_password c1) < 256)%nat ->
  (length (plain_username c2) < 256)%nat ->
  (length (plain_password c2) < 256)%nat ->
  Msg.data (snd (produce_hello true c1 m1))
  = Msg.data (snd (produce_hello true c2 m2)) ->
  plain_username c1 = plain_username c2
  /\ plain_password c1 = plain_password c2.
Proof.
  intros Hu1 Hp1 Hu2 Hp2.
  rewrite (PlainClientFacts.produce_hello_data c1 m1 Hu1 Hp1).
  rewrite (PlainClientFacts.produce_hello_data c2 m2 Hu2 Hp2).
  cbn [snd Msg.data]. unfold hello_frame. intros E.
  apply app_inv_head in E. injection E as Eb E.
  assert (Hlen : length (plain_username c1) = length (plain_username c2)).
  { apply (f_equal Wire.byte_val) in Eb.
    rewrite !WireFacts.byte_of_Z_val in Eb by lia. lia. }
  destruct (app_inv_same_length _ _ _ _ _ Hlen E) as [Hu E'].
  split; [exact Hu|]. now injection E'.
Qed.

Lemma steps_left_step (s : state_t) (a : action_t) (s' : state_t) :
  handshake_step s a s' -> (steps_left s' < steps_left s)%nat.
Proof. intros H; destruct H; cbn; lia. Qed.

(** X9: the handshake is bounded: from any state a sequence of calls has
    no more successful calls than the state has steps left, so at most
    four from the start, however many calls are made. *)
Theorem successes_bounded (ks : list call_t) (c : plain_client_t) :
  (length (PlainClient.successes parse_metadata
             make_command_with_basic_properties c ks)
   <= steps_left (state c))%nat.
Proof.
  revert c. induction ks as [|k ks IH]; intros c;
    cbn [PlainClient.successes length]; [lia|].
  pose proof (PlainClientFacts.perform_cases parse_metadata
                make_command_with_basic_properties c k) as H.
  destruct (PlainClient.perform parse_metadata
              make_command_with_basic_properties c k) as [rc c1].
  specialize (IH c1).
  destruct H as [[Hrc Hs] | [-> [a [_ Hstep]]]].
  - destruct (Z.eqb_spec rc 0); [contradiction|]. rewrite <- Hs. exact IH.
  - cbn [Z.eqb length]. apply steps_left_step in Hstep. lia.
Qed.

Lemma error_path_step (s : state_t) (a : action_t) (s' : state_t)
    (l : list (option action_t)) :
  handshake_step s a s' ->
  (In (Some a :: l) (paths_to_error s) <-> In l (paths_to_error s')).
Proof.
  intros H; destruct H; cbn [paths_to_error In]; split; intros E;
    intuition congruence.
Qed.

Lemma error_iff_path (ks : list call_t) (c : plain_client_t) :
  state (PlainClient.run parse_metadata
           make_command_with_basic_properties c ks)
  = error_command_received
  <-> In (PlainClient.successes parse_metadata
            make_command_with_basic_properties c ks)
         (paths_to_error (state c)).
Proof.
  revert c. induction ks as [|k ks IH]; intros c.
  - cbn [PlainClient.run PlainClient.successes].
    destruct (state c); cbn [paths_to_error In]; split; intros E;
      try discriminate; auto;
      repeat match goal with
             | H : _ \/ _ |- _ => destruct H
             | H : False |- _ => destruct H
             end; discriminate.
  - cbn [PlainClient.run PlainClient.successes].
    pose proof (PlainClientFacts.perform_cases parse_metadata
                  make_command_with_basic_properties c k) as H.
    destruct (PlainClient.perform parse_metadata
                make_command_with_basic_properties c k) as [rc c1].
    cbn [snd]. rewrite IH.
    destruct H as [[Hrc Hs] | [-> [a [Ha Hstep]]]].
    + destruct (Z.eqb_spec rc 0); [contradiction|]. now rewrite Hs.
    + cbn [Z.eqb]. rewrite Ha. symmetry. apply error_path_step.
      exact Hstep.
Qed.

(** X18: [status] reports the error exactly when the server has answered
    with an ERROR command that was accepted: from the start, after a
    sequence of calls the status is the error status if and only if the
    successful calls are HELLO and ERROR, or HELLO, WELCOME, INITIATE and
    ERROR; no refused command and no failed call ever turns the status to
    error. *)
Theorem status_error_iff_error_accepted
    (username password : list byte) (ks : list call_t) :
  status (PlainClient.run parse_metadata
            make_command_with_basic_properties
            (create username password) ks) = status_error
  <-> PlainClient.successes parse_metadata
        make_command_with_basic_properties (create username password) ks
      = [Some produced_hello; Some received_error]
      \/ PlainClient.successes parse_metadata
           make_command_with_basic_properties
           (create username password) ks
         = [Some produced_hello; Some received_welcome;
            Some produced_initiate; Some received_error].
Proof.
  assert (Hst : forall c, status c = status_error
                          <-> state c = error_command_received).
  { intros c. unfold status. destruct (state c); cbn;
      split; intros E; try discriminate; reflexivity. }
  rewrite Hst, error_iff_path. cbn [create state paths_to_error In].
  split.
  - intros [E | [E | []]]; [left | right]; now rewrite <- E.
  - intros [E | E]; [left | right; left]; now rewrite E.
Qed.

End Mechanism.

(** *** Worked examples *)


(** WELCOME before HELLO was sent. *)
Lemma process_welcome_before_hello :
  (state (create [x75] [x70]) = sending_hello
   \/ state (create [x75] [x70]) = sending_initiate
   \/ state (create [x75] [x70]) = ready
   \/ state (create [x75] [x70]) = error_command_received)
  /\ PlainClient.process_handshake_command (fun _ => (0, None))
       (create [x75] [x70]) (Msg.with_data WELCOME Msg.empty_msg)
     = (-1,
        set_errno EPROTO
          (report
             (event_handshake_failed_protocol ZMTP_UNEXPECTED_COMMAND)
             (create [x75] [x70])),
        Msg.with_data WELCOME Msg.empty_msg).
Proof.
  assert (H : state (create [x75] [x70]) = sending_hello
              \/ state (create [x75] [x70]) = sending_initiate
              \/ state (create [x75] [x70]) = ready
              \/ state (create [x75] [x70]) = error_command_received)
    by (left; reflexivity).
  split; [exact H|].
  exact (process_handshake_command_when_not_waiting (fun _ => (0, None))
           (create [x75] [x70]) (Msg.with_data WELCOME Msg.empty_msg) H).
Defined.

(** READY while the client waits for WELCOME. *)
Lemma process_ready_before_welcome :
  ((state (set_state waiting_for_welcome (create [x75] [x70]))
    = waiting_for_welcome
    /\ Msg.data (Msg.with_data READY Msg.empty_msg) = READY ++ [])
   \/ (state (set_state waiting_for_welcome (create [x75] [x70]))
       = waiting_for_ready
       /\ Msg.data (Msg.with_data READY Msg.empty_msg) = WELCOME ++ []))
  /\ PlainClient.process_handshake_command (fun _ => (0, None))
       (set_state waiting_for_welcome (create [x75] [x70]))
       (Msg.with_data READY Msg.empty_msg)
     = (-1,
        set_errno EPROTO
          (report
             (event_handshake_failed_protocol ZMTP_UNEXPECTED_COMMAND)
             (set_state waiting_for_welcome (create [x75] [x70]))),
        Msg.with_data READY Msg.empty_msg).
Proof.
  assert (H : (state (set_state waiting_for_welcome (create [x75] [x70]))
               = waiting_for_welcome
               /\ Msg.data (Msg.with_data READY Msg.empty_msg)
                  = READY ++ [])
              \/ (state (set_state waiting_for_welcome
                           (create [x75] [x70]))
                  = waiting_for_ready
                  /\ Msg.data (Msg.with_data READY Msg.empty_msg)
                     = WELCOME ++ []))
    by (left; split; reflexivity).
  split; [exact H|].
  exact (process_handshake_command_out_of_turn (fun _ => (0, None)) _ _ [] H).
Defined.

(** The empty message while the client waits for WELCOME. *)
Lemma process_empty_message :
  Msg.size Msg.empty_msg < 6
  /\ PlainClient.process_handshake_command (fun _ => (0, None))
       (set_state waiting_for_welcome (create [x75] [x70])) Msg.empty_msg
     = (-1,
        set_errno EPROTO
          (report
             (event_handshake_failed_protocol ZMTP_UNEXPECTED_COMMAND)
             (set_state waiting_for_welcome (create [x75] [x70]))),
        Msg.empty_msg).
Proof.
  assert (H : Msg.size Msg.empty_msg < 6) by (cbn; lia).
  split; [exact H|].
  exact (process_handshake_command_short_message (fun _ => (0, None)) _ _ H).
Defined.

(** HELLO is produced once; the second call has to wait. *)
Lemma next_handshake_command_hello_once :
  PlainClient.next_handshake_command (fun m _ => m) true
    (create [x75] [x70]) Msg.empty_msg
  = (0, set_state waiting_for_welcome (create [x75] [x70]),
     {| Msg.kind := Msg.owned; Msg.flags := 0;
        Msg.data := [x05; x48; x45; x4c; x4c; x4f; x01; x75; x01; x70] |})
  /\ PlainClient.next_handshake_command (fun m _ => m) true
       (set_state waiting_for_welcome (create [x75] [x70])) Msg.empty_msg
     = (-1,
        set_errno EAGAIN
          (set_state waiting_for_welcome (create [x75] [x70])),
        Msg.empty_msg).
Proof.
  assert (E : PlainClient.next_handshake_command (fun m _ => m) true
                (create [x75] [x70]) Msg.empty_msg
              = (0, set_state waiting_for_welcome (create [x75] [x70]),
                 {| Msg.kind := Msg.owned; Msg.flags := 0;
                    Msg.data :=
                      [x05; x48; x45; x4c; x4c; x4f; x01; x75; x01; x70] |}))
    by reflexivity.
  split; [exact E|].
  exact (next_handshake_command_not_twice (fun m _ => m) true true
           _ _ _ _ Msg.empty_msg E).
Defined.

(** No memory for HELLO, then memory. *)
Lemma next_handshake_command_second_try :
  state (create [x75] [x70]) = sending_hello
  /\ (length (plain_username (create [x75] [x70])) < 256)%nat
  /\ (length (plain_password (create [x75] [x70])) < 256)%nat
  /\ PlainClient.next_handshake_command (fun m _ => m) false
       (create [x75] [x70]) Msg.empty_msg
     = (-1, set_errno ENOMEM (create [x75] [x70]), Msg.closed)
  /\ PlainClient.next_handshake_command (fun m _ => m) true
       (set_errno ENOMEM (create [x75] [x70])) Msg.closed
     = (0,
        set_state waiting_for_welcome
          (set_errno ENOMEM (create [x75] [x70])),
        {| Msg.kind := Msg.owned; Msg.flags := 0;
           Msg.data :=
             [x05; x48; x45; x4c; x4c; x4f; x01; x75; x01; x70] |}).
Proof.
  assert (Hu : (length (plain_username (create [x75] [x70])) < 256)%nat)
    by (cbn; lia).
  assert (Hp : (length (plain_password (create [x75] [x70])) < 256)%nat)
    by (cbn; lia).
  split; [reflexivity|]. split; [exact Hu|]. split; [exact Hp|].
  exact (next_handshake_command_retry_after_enomem (fun m _ => m)
           (create [x75] [x70]) Msg.empty_msg eq_refl Hu Hp).
Defined.

(** Two clients with the same credentials and different histories. *)
Lemma produce_hello_same_credentials :
  Msg.data (snd (produce_hello true (create [x75] [x70]) Msg.empty_msg))
  = Msg.data
      (snd (produce_hello true
              (set_errno EAGAIN (create [x75] [x70])) Msg.closed))
  /\ plain_username (create [x75] [x70])
     = plain_username (set_errno EAGAIN (create [x75] [x70]))
  /\ plain_password (create [x75] [x70])
     = plain_password (set_errno EAGAIN (create [x75] [x70])).
Proof.
  split; [reflexivity|].
  apply (produce_hello_injective (create [x75] [x70])
           (set_errno EAGAIN (create [x75] [x70]))
           Msg.empty_msg Msg.closed);
    try (cbn; lia). reflexivity.
Defined.

End PlainClientMore.
